(** * gulpfile.js: configuration, task pipelines and task sequencing

    A shallow embedding of the build configuration of the static-site
    boilerplate.  The gulpfile computes an environment flag and a port from
    [process.env], builds path strings from two directory names, and
    registers ten gulp tasks whose stage lists branch on the flag.  The
    behaviour of the libraries the file calls (run-sequence, the gulp 3
    orchestrator, the glob matcher behind [gulp.src], [del], gulp-notify)
    is modelled by small executable definitions, each introduced where it is
    first needed and labelled as the contract of that library. *)

From Stdlib Require Import ZArith Ascii String List Bool Lia.
From stdpp Require Import base option list strings gmap fin_maps.

Open Scope string_scope.
Open Scope list_scope.

(* ===================================================================== *)
(** ** JavaScript values that occur in the configuration *)
(* ===================================================================== *)

Module Js.

(** The values the gulpfile reads from [process.env] or writes as
    literals: [undefined], strings, numbers and booleans. *)
Inductive value : Type :=
| Undefined
| Str (s : string)
| Num (n : Z)
| Bool (b : bool).

(** ToBoolean on these values: [undefined], the empty string, [0] and
    [false] are falsy. *)
Definition truthy (v : value) : bool :=
  match v with
  | Undefined => false
  | Str s => negb (String.eqb s "")
  | Num n => negb (Z.eqb n 0)
  | Bool b => b
  end.

(** [a || b]. *)
Definition or (a b : value) : value := if truthy a then a else b.

(** [a === b]: no coercion, so values of different types are never equal. *)
Definition strict_eq (a b : value) : bool :=
  match a, b with
  | Undefined, Undefined => true
  | Str s, Str t => String.eqb s t
  | Num n, Num m => Z.eqb n m
  | Bool x, Bool y => Bool.eqb x y
  | _, _ => false
  end.

(** [process.env]: a map from names to strings; a name that is not set
    reads as [undefined]. *)
Definition env_get (env : gmap string string) (k : string) : value :=
  match env !! k with
  | Some s => Str s
  | None => Undefined
  end.

End Js.

(* ===================================================================== *)
(** ** Configuration *)
(* ===================================================================== *)

(** [const isProd = process.env.NODE_ENV === 'production';] *)
Definition isProd (env : gmap string string) : bool :=
  Js.strict_eq (Js.env_get env "NODE_ENV") (Js.Str "production").

(** [const dirs = { entry: 'src', output: 'build' };] *)
Record dirs_t : Type := { entry : string; output : string }.

Definition dirs : dirs_t := {| entry := "src"; output := "build" |}.

(** The first argument of [gulp.src] and [gulp.watch]: one glob, or an
    array of globs. *)
Inductive globs : Type :=
| One (g : string)
| Many (gs : list string).

Definition glob_list (g : globs) : list string :=
  match g with
  | One s => [s]
  | Many l => l
  end.

(** [g[i]] for an array of globs. *)
Definition glob_at (g : globs) (i : nat) : option globs :=
  match g with
  | One _ => None
  | Many l => One <$> l !! i
  end.

(** One entry of [paths]: [src] is a single glob for views, media and
    styles and an array of globs for scripts. *)
Record path_entry : Type := { src : globs; dest : string }.

Record paths_t : Type := {
  p_views : path_entry;
  p_media : path_entry;
  p_styles : path_entry;
  p_scripts : path_entry
}.

(** [const paths = { ... }], the template literals written as
    concatenations with [dirs.entry] and [dirs.output]. *)
Definition paths : paths_t := {|
  p_views := {| src := One (entry dirs +:+ "/views/**/*");
                dest := output dirs |};
  p_media := {| src := One (entry dirs +:+ "/media/**/*.+(gif|jpg|jpeg|png|svg)");
                dest := output dirs +:+ "/static/media" |};
  p_styles := {| src := One (entry dirs +:+ "/styles/**/*.+(css|scss)");
                 dest := output dirs +:+ "/static/styles" |};
  p_scripts := {| src := Many [entry dirs +:+ "/scripts/**/*.js";
                               "!" +:+ entry dirs +:+ "/scripts/**/*.module.js"];
                  dest := output dirs +:+ "/static/scripts" |}
|}.

(** The four asset-processing tasks and the six other registered tasks. *)
Inductive task : Type :=
| views | media | styles | scripts
| serve | views_watch | scripts_watch | watch | clean | default.

Global Instance task_eq_dec : EqDecision task.
Proof. solve_decision. Defined.

(** The name under which [gulp.task] registers each task. *)
Definition task_name (t : task) : string :=
  match t with
  | views => "views" | media => "media" | styles => "styles"
  | scripts => "scripts" | serve => "serve"
  | views_watch => "views:watch" | scripts_watch => "scripts:watch"
  | watch => "watch" | clean => "clean" | default => "default"
  end.

Definition asset_tasks : list task := [views; media; styles; scripts].

(** [paths[t]] for an asset task; the other tasks have no entry. *)
Definition paths_of (t : task) : option path_entry :=
  match t with
  | views => Some (p_views paths)
  | media => Some (p_media paths)
  | styles => Some (p_styles paths)
  | scripts => Some (p_scripts paths)
  | _ => None
  end.

(** [pluginConfig.browserSync]. *)
Record browserSync_config : Type := { port : Js.value; baseDir : string }.

(** [pluginConfig.webpack], the two fields that branch on [isProd]:
    [devtool] and whether [plugins] holds the MinifyPlugin. *)
Inductive webpack_plugin : Type :=
| MinifyPlugin (removeConsole : bool).

Record webpack_config : Type := {
  devtool : string;
  loader : string;
  plugins : list webpack_plugin
}.

(** Everything the file computes once when it is loaded. *)
Record config : Type := {
  c_isProd : bool;
  c_browserSync : browserSync_config;
  c_webpack : webpack_config
}.

(** Loading the gulpfile under an environment: the top-level [const]
    declarations, evaluated in order. *)
Definition load (env : gmap string string) : config :=
  let prod := isProd env in
  {| c_isProd := prod;
     c_browserSync :=
       {| port := Js.or (Js.env_get env "PORT") (Js.Num 3000);
          baseDir := output dirs |};
     c_webpack :=
       {| devtool := if prod then "cheap-source-map"
                     else "cheap-eval-source-map";
          loader := "babel-loader";
          plugins := if prod then [MinifyPlugin true] else [] |} |}.

(* ===================================================================== *)
(** ** Error reporting: [pluginConfig.plumber.errorHandler] *)
(* ===================================================================== *)

(** The error object a failing plugin hands to gulp-plumber. *)
Record error : Type := { e_message : string; e_plugin : string }.

(** The options object passed to [notify.onError]. *)
Record notify_options : Type := {
  o_title : string;
  o_message : string;
  o_sound : string
}.

(** What the handler does, in order: the call
    [notify.onError(opts).apply(this, args)] and [this.emit(name)]. *)
Inductive handler_effect : Type :=
| NotifyOnError (opts : notify_options) (args : list error)
| Emit (event_name : string).

(** [errorHandler(...args) { notify.onError({...}).apply(this, args);
    this.emit('end'); }] *)
Definition errorHandler (args : list error) : list handler_effect :=
  [ NotifyOnError {| o_title := "Compile Error";
                     o_message := "<%= error.message %>";
                     o_sound := "Funk" |} args;
    Emit "end" ].

(** Contract of gulp-notify: the title and message options are templates
    in which the interpolation [<%= error.message %>] stands for the
    message of the reported error; everything else is copied.  [skip]
    counts the characters of an interpolation still to be dropped. *)
Definition interpolation : string := "<%= error.message %>".

Fixpoint render_from (skip : nat) (tpl : string) (e : error) : string :=
  match tpl with
  | EmptyString => EmptyString
  | String ch rest =>
      match skip with
      | S k => render_from k rest e
      | O =>
          if String.prefix interpolation tpl
          then e_message e +:+ render_from (String.length interpolation - 1) rest e
          else String ch (render_from 0 rest e)
      end
  end.

Definition render (tpl : string) (e : error) : string := render_from 0 tpl e.

(** The desktop notification gulp-notify shows for one reported error. *)
Record notification : Type := {
  n_title : string;
  n_message : string;
  n_sound : string
}.

Definition notification_of (opts : notify_options) (e : error) : notification :=
  {| n_title := render (o_title opts) e;
     n_message := render (o_message opts) e;
     n_sound := o_sound opts |}.

(** The desktop notifications shown and the events emitted on the
    stream when the handler runs (what gulp-notify writes to the console
    is left out). *)
Inductive observation : Type :=
| Notified (n : notification)
| Emitted (event_name : string).

(** Contract of the reporter that [notify.onError] returns: applied to
    a stream and an error, it hands the notification for that error to
    the notifier and then ends the stream itself
    ([self.emit && self.emit('end')]).  The handler's own [this.emit]
    is one more event on the same stream. *)
Definition observe (eff : handler_effect) : list observation :=
  match eff with
  | NotifyOnError opts args =>
      map (fun e => Notified (notification_of opts e)) (firstn 1 args)
      ++ [Emitted "end"]
  | Emit name => [Emitted name]
  end.

(* ===================================================================== *)
(** ** Task pipelines *)
(* ===================================================================== *)

(** The stream stages the four asset tasks pipe their files through.
    [Plumber] carries the error handler of the options object it is given. *)
Inductive stage : Type :=
| Src (from : globs)
| Plumber (handler : list error -> list handler_effect)
| Noop
| Changed (dest_dir : string)
| Imagemin
| SourcemapsInit
| Sass
| Autoprefixer
| CleanCSS
| SourcemapsWrite (dir : string)
| Named
| Webpack (cfg : webpack_config)
| Dest (dir : string)
| BrowserSyncStream.

(** One [.pipe(...)] call (or the leading [gulp.src]): either a fixed
    stage or the ternary [isProd ? a : b]. *)
Inductive slot : Type :=
| Always (s : stage)
| IfProd (when_prod when_dev : stage).

Definition eval_slot (prod : bool) (sl : slot) : stage :=
  match sl with
  | Always s => s
  | IfProd a b => if prod then a else b
  end.

(** The chains of the four asset tasks, slot by slot as written. *)
Definition slots (c : config) (t : task) : list slot :=
  match t with
  | views =>
      [ Always (Src (src (p_views paths)));
        Always (Plumber errorHandler);
        IfProd Noop (Changed (dest (p_views paths)));
        Always (Dest (dest (p_views paths))) ]
  | media =>
      [ Always (Src (src (p_media paths)));
        Always (Plumber errorHandler);
        IfProd Noop (Changed (dest (p_media paths)));
        IfProd Imagemin Noop;
        Always (Dest (dest (p_media paths)));
        IfProd Noop BrowserSyncStream ]
  | styles =>
      [ Always (Src (src (p_styles paths)));
        Always (Plumber errorHandler);
        IfProd Noop (Changed (dest (p_styles paths)));
        Always SourcemapsInit;
        Always Sass;
        Always Autoprefixer;
        IfProd CleanCSS Noop;
        Always (SourcemapsWrite ".");
        Always (Dest (dest (p_styles paths)));
        IfProd Noop BrowserSyncStream ]
  | scripts =>
      [ Always (Src (src (p_scripts paths)));
        Always (Plumber errorHandler);
        Always Named;
        Always (Webpack (c_webpack c));
        Always (Dest (dest (p_scripts paths))) ]
  | _ => []
  end.

(** The stream an asset task returns under a loaded configuration. *)
Definition pipeline (c : config) (t : task) : list stage :=
  map (eval_slot (c_isProd c)) (slots c t).

Definition is_plumber (s : stage) : bool :=
  match s with Plumber _ => true | _ => false end.

Definition is_dest (s : stage) : bool :=
  match s with Dest _ => true | _ => false end.

(* ===================================================================== *)
(** ** The task registry *)
(* ===================================================================== *)

(** One argument of [runSequence]: a task name, or an array of task
    names. *)
Inductive step : Type :=
| Single (t : task)
| Group (ts : list task).

Definition step_tasks (s : step) : list task :=
  match s with
  | Single t => [t]
  | Group ts => ts
  end.

(** What a task function does when gulp calls it. *)
Inductive action : Type :=
| ReturnStream (stages : list stage)
| BrowserSyncInit (cfg : browserSync_config)
| BrowserSyncReload
| Done
| GulpWatch (glob : option globs) (tasks : list task)
| Del (patterns : list string)
| RunSequence (steps : list step).

(** The second argument of [gulp.task] where it is an array: the tasks
    that must complete before this one is called. *)
Definition deps (t : task) : list task :=
  match t with
  | views_watch => [views]
  | scripts_watch => [scripts]
  | _ => []
  end.

(** [const compile = ['views', 'media', 'styles', 'scripts'];] *)
Definition compile : list task := [views; media; styles; scripts].

(** The arguments the default task passes to [runSequence] (the trailing
    callback left out). *)
Definition default_sequence (c : config) : list step :=
  if c_isProd c
  then [Single clean; Group compile]
  else [Single clean; Group compile; Single serve; Single watch].

(** The body of each registered task function. *)
Definition body (c : config) (t : task) : list action :=
  match t with
  | views | media | styles | scripts => [ReturnStream (pipeline c t)]
  | serve => [BrowserSyncInit (c_browserSync c)]
  | views_watch => [BrowserSyncReload; Done]
  | scripts_watch => [BrowserSyncReload; Done]
  | watch =>
      [ GulpWatch (Some (src (p_views paths))) [views_watch];
        GulpWatch (Some (src (p_media paths))) [media];
        GulpWatch (Some (src (p_styles paths))) [styles];
        GulpWatch (glob_at (src (p_scripts paths)) 0) [scripts_watch] ]
  | clean => [Del [output dirs]]
  | default => [RunSequence (default_sequence c)]
  end.

(* ===================================================================== *)
(** ** A process that loads the file once and then runs tasks *)
(* ===================================================================== *)

(** The process keeps its environment, which later code may change, and
    the configuration the gulpfile computed when it was loaded. *)
Record process : Type := {
  p_env : gmap string string;
  p_config : config
}.

Definition startup (env : gmap string string) : process :=
  {| p_env := env; p_config := load env |}.

(** What can happen after startup: the environment is written, or gulp
    calls a task function. *)
Inductive request : Type :=
| SetEnv (k v : string)
| UnsetEnv (k : string)
| Call (t : task).

(** One request: the new process state and what the called task did. *)
Definition serve_request (p : process) (r : request) : process * list action :=
  match r with
  | SetEnv k v => ({| p_env := <[k := v]> (p_env p); p_config := p_config p |}, [])
  | UnsetEnv k => ({| p_env := delete k (p_env p); p_config := p_config p |}, [])
  | Call t => (p, body (p_config p) t)
  end.

Fixpoint serve_requests (p : process) (rs : list request) : process * list (list action) :=
  match rs with
  | [] => (p, [])
  | r :: rs' =>
      let '(p1, out) := serve_request p r in
      let '(p2, outs) := serve_requests p1 rs' in
      (p2, out :: outs)
  end.

(* ===================================================================== *)
(** ** Running tasks: the gulp 3 orchestrator and run-sequence *)
(* ===================================================================== *)

(** What the orchestrator does with one task: it calls the task function
    ([Invoke]), and later learns that the task is complete ([Complete]):
    its stream ended, its callback was called, or it returned. *)
Inductive event : Type :=
| Invoke (t : task)
| Complete (t : task).

Global Instance event_eq_dec : EqDecision event.
Proof. solve_decision. Defined.

Definition mem (t : task) (l : list task) : bool := bool_decide (t ∈ l).

(** Contract of the orchestrator's [sequencify]: the requested names and,
    before each, the tasks it depends on, every task once.  [fuel] bounds
    the nesting of dependencies. *)
Fixpoint sequencify (fuel : nat) (names results : list task) : list task :=
  match fuel with
  | O => results
  | S fuel' =>
      fold_left
        (fun res name =>
           if mem name res then res
           else sequencify fuel' (deps name) res ++ [name])
        names results
  end.

Definition all_tasks : list task :=
  [views; media; styles; scripts; serve; views_watch; scripts_watch;
   watch; clean; default].

(** The state of one [gulp.start(names)] with at least one name: the
    tasks to run, those whose function has been called, and those that
    are complete.  (A call without names runs every registered task; the
    empty list stands here only for the idle state before the first task
    set of a sequence.) *)
Record orch : Type := {
  o_seq : list task;
  o_started : list task;
  o_done : list task
}.

Definition gulp_start (names : list task) : orch :=
  {| o_seq := sequencify (S (length all_tasks)) names [];
     o_started := [];
     o_done := [] |}.

(** Contract of the orchestrator: a task of the sequence is called once,
    and only when all the tasks it depends on are complete; a task
    completes once, after it was called. *)
Definition orch_fire (o : orch) (e : event) : option orch :=
  match e with
  | Invoke t =>
      if mem t (o_seq o) && negb (mem t (o_started o))
         && forallb (fun d => mem d (o_done o)) (deps t)
      then Some {| o_seq := o_seq o;
                   o_started := t :: o_started o;
                   o_done := o_done o |}
      else None
  | Complete t =>
      if mem t (o_started o) && negb (mem t (o_done o))
      then Some {| o_seq := o_seq o;
                   o_started := o_started o;
                   o_done := t :: o_done o |}
      else None
  end.

(** A run of one [gulp.start]: the events of the tasks of its own
    sequence.  The tasks that the default task starts through
    [runSequence] form the run of that sequence ([rs_run] below), not
    part of this one. *)
Fixpoint orch_run (o : orch) (tr : list event) : option orch :=
  match tr with
  | [] => Some o
  | e :: tr' =>
      match orch_fire o e with
      | Some o' => orch_run o' tr'
      | None => None
      end
  end.

(** All the tasks named in the call have stopped. *)
Definition stopped (o : orch) (names : list task) : bool :=
  forallb (fun t => mem t (o_done o)) names.

(** The state of one [runSequence(...)] call: the running task set and
    the task sets still to come. *)
Record rs_state : Type := {
  rs_cur : orch;
  rs_names : list task;
  rs_rest : list step
}.

Definition run_sequence (steps : list step) : rs_state :=
  {| rs_cur := gulp_start []; rs_names := []; rs_rest := steps |}.

(** Contract of run-sequence: the next task set is started with
    [gulp.start] when every task of the current set has stopped; until
    then events belong to the current set. *)
Definition rs_fire (st : rs_state) (e : event) : option rs_state :=
  if stopped (rs_cur st) (rs_names st)
  then match rs_rest st with
       | [] => None
       | s :: rest =>
           match orch_fire (gulp_start (step_tasks s)) e with
           | Some o => Some {| rs_cur := o; rs_names := step_tasks s; rs_rest := rest |}
           | None => None
           end
       end
  else match orch_fire (rs_cur st) e with
       | Some o => Some {| rs_cur := o; rs_names := rs_names st; rs_rest := rs_rest st |}
       | None => None
       end.

Fixpoint rs_run (st : rs_state) (tr : list event) : option rs_state :=
  match tr with
  | [] => Some st
  | e :: tr' =>
      match rs_fire st e with
      | Some st' => rs_run st' tr'
      | None => None
      end
  end.

(** The sequence is over (the callback is called) when the last task set
    has stopped. *)
Definition rs_finished (st : rs_state) : bool :=
  stopped (rs_cur st) (rs_names st)
  && match rs_rest st with [] => true | _ => false end.

(** [tr] is a complete run of [runSequence(steps)]. *)
Definition rs_accepts (steps : list step) (tr : list event) : bool :=
  match rs_run (run_sequence steps) tr with
  | Some st => rs_finished st
  | None => false
  end.

(** [tr] is a complete run of [gulp.start(names)]. *)
Definition orch_accepts (names : list task) (tr : list event) : bool :=
  match orch_run (gulp_start names) tr with
  | Some o => stopped o (o_seq o)
  | None => false
  end.

(** The log of a run: each call of a task function is followed by the
    actions of its body, which run synchronously. *)
Inductive log_entry : Type :=
| Called (t : task)
| Performed (t : task) (a : action)
| Stopped (t : task).

Definition expand (c : config) (e : event) : list log_entry :=
  match e with
  | Invoke t => Called t :: map (Performed t) (body c t)
  | Complete t => [Stopped t]
  end.

Definition log_of (c : config) (tr : list event) : list log_entry :=
  flat_map (expand c) tr.

(** [a] occurs in [l] strictly before some occurrence of [b]. *)
Definition precedes {A : Type} (a b : A) (l : list A) : Prop :=
  exists l1 l2 l3, l = l1 ++ a :: l2 ++ b :: l3.

(** One run of the default task in development: the compile tasks
    overlap, [media] finishing first. *)
Definition dev_trace : list event :=
  [Invoke clean; Complete clean;
   Invoke views; Invoke media; Complete media; Invoke styles; Invoke scripts;
   Complete views; Complete scripts; Complete styles;
   Invoke serve; Complete serve; Invoke watch; Complete watch].

(** A run of the task sets one after the other: the run of each set is a
    run of [gulp.start] on it that ends with all its tasks stopped. *)
Fixpoint runs_steps (steps : list step) (tr : list event) : Prop :=
  match steps with
  | [] => tr = []
  | s :: rest =>
      exists tc ts o,
        tr = tc ++ ts
        /\ orch_run (gulp_start (step_tasks s)) tc = Some o
        /\ stopped o (step_tasks s) = true
        /\ runs_steps rest ts
  end.

(* ===================================================================== *)
(** ** Globs, [gulp.src] and [del] *)
(* ===================================================================== *)

(** A path relative to the working directory, as its segments. *)
Abbreviation path := (list string).

(** The segments of a slash-separated string. *)
Fixpoint split_slash (s : string) : list string :=
  match s with
  | EmptyString => [EmptyString]
  | String ch s' =>
      if Ascii.eqb ch "/" then EmptyString :: split_slash s'
      else match split_slash s' with
           | seg :: segs => String ch seg :: segs
           | [] => [String ch EmptyString]
           end
  end.

(** One character of a segment pattern: itself, or the wildcard. *)
Inductive atom : Type :=
| Lit (ch : ascii)
| Star.

(** One segment of a glob: the globstar, or a pattern for one name. *)
Inductive seg_pat : Type :=
| Globstar
| Seg (atoms : list atom).

(** The characters that start a construct outside the fragment modelled
    here (classes, braces, extended globs, escapes). *)
Definition unsupported (ch : ascii) : bool :=
  existsb (Ascii.eqb ch)
    ["?"; "["; "]"; "{"; "}"; "("; ")"; "+"; "@"; "!"; "|"; "\"]%char.

Fixpoint parse_atoms (s : string) : option (list atom) :=
  match s with
  | EmptyString => Some []
  | String ch s' =>
      if unsupported ch then None
      else match parse_atoms s' with
           | Some atoms =>
               Some ((if Ascii.eqb ch "*" then Star else Lit ch) :: atoms)
           | None => None
           end
  end.

Definition parse_segment (s : string) : option seg_pat :=
  if String.eqb s "**" then Some Globstar
  else match parse_atoms s with
       | Some atoms => Some (Seg atoms)
       | None => None
       end.

Fixpoint parse_segments (segs : list string) : option (list seg_pat) :=
  match segs with
  | [] => Some []
  | s :: segs' =>
      match parse_segment s, parse_segments segs' with
      | Some p, Some ps => Some (p :: ps)
      | _, _ => None
      end
  end.

(** A glob of the array given to [gulp.src] or [del]: a leading [!]
    negates it. *)
Record glob : Type := { negated : bool; segments : list seg_pat }.

Definition parse_glob (s : string) : option glob :=
  match s with
  | String "!" s' =>
      match parse_segments (split_slash s') with
      | Some ps => Some {| negated := true; segments := ps |}
      | None => None
      end
  | _ =>
      match parse_segments (split_slash s) with
      | Some ps => Some {| negated := false; segments := ps |}
      | None => None
      end
  end.

Fixpoint parse_globs (l : list string) : option (list glob) :=
  match l with
  | [] => Some []
  | s :: l' =>
      match parse_glob s, parse_globs l' with
      | Some g, Some gs => Some (g :: gs)
      | _, _ => None
      end
  end.

(** A name that starts with a period. *)
Definition hidden (name : string) : bool :=
  match name with
  | String ch _ => Ascii.eqb ch "."
  | EmptyString => false
  end.

(** Contract of the glob matcher (minimatch, default options) on one
    name: a literal matches itself and [*] any run of characters. *)
Fixpoint match_atoms (pat : list atom) : string -> bool :=
  match pat with
  | [] => fun s => String.eqb s ""
  | Lit ch :: pat' =>
      fun s =>
        match s with
        | String d s' => Ascii.eqb ch d && match_atoms pat' s'
        | EmptyString => false
        end
  | Star :: pat' =>
      fix star (s : string) : bool :=
        match_atoms pat' s
        || match s with
           | String _ s' => star s'
           | EmptyString => false
           end
  end.

(** A pattern that starts with a wildcard matches neither the empty name
    nor, by default, a name that starts with a period. *)
Definition match_seg (pat : list atom) (name : string) : bool :=
  match pat with
  | Star :: _ =>
      negb (hidden name) && negb (String.eqb name "") && match_atoms pat name
  | _ => match_atoms pat name
  end.

(** Contract of the glob matcher on a path: segment by segment, the
    globstar standing for any number of directories, none of them
    hidden. *)
Fixpoint match_path (ps : list seg_pat) : path -> bool :=
  match ps with
  | [] => fun segs => match segs with [] => true | _ :: _ => false end
  | Globstar :: ps' =>
      fix star (segs : path) : bool :=
        match_path ps' segs
        || match segs with
           | s :: segs' => negb (hidden s) && star segs'
           | [] => false
           end
  | Seg atoms :: ps' =>
      fun segs =>
        match segs with
        | s :: segs' => match_seg atoms s && match_path ps' segs'
        | [] => false
        end
  end.

(** Contract of [gulp.src] (glob-stream): a path is selected when a
    positive glob matches it and no negated glob that comes later in the
    array does. *)
Fixpoint gulp_src (globs : list glob) (p : path) : bool :=
  match globs with
  | [] => false
  | g :: rest =>
      if negated g then gulp_src rest p
      else (match_path (segments g) p
            && negb (existsb (fun n => negated n && match_path (segments n) p) rest))
           || gulp_src rest p
  end.

(** The two globs of [paths.scripts.src], parsed. *)
Definition scripts_include : glob :=
  {| negated := false;
     segments := [Seg (map Lit (list_ascii_of_string "src"));
                  Seg (map Lit (list_ascii_of_string "scripts"));
                  Globstar;
                  Seg (Star :: map Lit (list_ascii_of_string ".js"))] |}.

Definition scripts_exclude : glob :=
  {| negated := true;
     segments := [Seg (map Lit (list_ascii_of_string "src"));
                  Seg (map Lit (list_ascii_of_string "scripts"));
                  Globstar;
                  Seg (Star :: map Lit (list_ascii_of_string ".module.js"))] |}.

(** The files the scripts task reads: [gulp.src(paths.scripts.src)]. *)
Definition scripts_selects (p : path) : option bool :=
  match parse_globs (glob_list (src (p_scripts paths))) with
  | Some gs => Some (gulp_src gs p)
  | None => None
  end.

(** The files on disk, by path. *)
Abbreviation filesystem := (gmap (list string) string).

(** The non-empty prefixes of a path: the path itself and the
    directories above it. *)
Fixpoint ancestors (p : path) : list path :=
  match p with
  | [] => []
  | s :: p' => [s] :: map (cons s) (ancestors p')
  end.

(** Contract of [del]: every file or directory a pattern matches is
    removed, a directory with everything below it. *)
Definition del_removes (gs : list glob) (p : path) : bool :=
  existsb (gulp_src gs) (ancestors p).

Definition del (patterns : list string) (fs : filesystem) : option filesystem :=
  match parse_globs patterns with
  | Some gs => Some (filter (fun kv => del_removes gs kv.1 = false) fs)
  | None => None
  end.

(** The glob of [del([dirs.output])], parsed. *)
Definition output_glob : glob :=
  {| negated := false;
     segments := [Seg (map Lit (list_ascii_of_string (output dirs)))] |}.

(** Running the actions of a task body that touch the files on disk. *)
Definition run_clean (c : config) (fs : filesystem) : option filesystem :=
  match body c clean with
  | [Del patterns] => del patterns fs
  | _ => None
  end.

(* ===================================================================== *)
(** ** Predicates on the configured path strings *)
(* ===================================================================== *)

(** The strings of [dirs] and [paths], in the order they are written. *)
Definition configured_paths : list string :=
  [entry dirs; output dirs]
  ++ flat_map (fun pe => glob_list (src pe) ++ [dest pe])
       [p_views paths; p_media paths; p_styles paths; p_scripts paths].

Definition has_slash (s : string) : bool :=
  existsb (Ascii.eqb "/") (list_ascii_of_string s).

Definition leading_slash (s : string) : bool :=
  match s with
  | String ch _ => Ascii.eqb ch "/"
  | EmptyString => false
  end.

Fixpoint trailing_slash (s : string) : bool :=
  match s with
  | EmptyString => false
  | String ch EmptyString => Ascii.eqb ch "/"
  | String _ s' => trailing_slash s'
  end.

(** A glob without the [!] that negates it. *)
Definition strip_bang (s : string) : string :=
  match s with
  | String "!" s' => s'
  | _ => s
  end.

(** Where an asset task writes: the output directory itself for views,
    its own subdirectory of [static] for the others. *)
Definition conventional_dest (t : task) : string :=
  match t with
  | views => output dirs
  | _ => output dirs +:+ "/static/" +:+ task_name t
  end.

(** [name] ends in [suffix]. *)
Definition ends_in (suffix name : string) : Prop :=
  exists stem, name = stem +:+ suffix.

(** A file below [src/scripts]: the directories [ds] under it, then the
    file name. *)
Definition under_scripts (p : path) (ds : list string) (name : string) : Prop :=
  p = [entry dirs; "scripts"] ++ ds ++ [name].

(* ===================================================================== *)
(** ** Reading, watching and writing by path *)
(* ===================================================================== *)

(** The paths a call [gulp.src(g)] reads: those its globs select. *)
Definition selects (g : globs) (p : path) : option bool :=
  match parse_globs (glob_list g) with
  | Some gs => Some (gulp_src gs p)
  | None => None
  end.

(** The files an asset task reads: [gulp.src(paths.<task>.src)]. *)
Definition task_reads (t : task) (p : path) : option bool :=
  match paths_of t with
  | Some pe => selects (src pe) p
  | None => None
  end.

(** Contract of [gulp.watch(g, tasks)]: the watcher fires for the paths
    its globs select. *)
Definition watch_matches (g : option globs) (p : path) : option bool :=
  match g with
  | Some gl => selects gl p
  | None => None
  end.

(** A file that [gulp.dest(d)] writes: the segments of [d], then the
    path of the file relative to it. *)
Definition written_under (d : string) (rel : path) : path :=
  split_slash d ++ rel.

(** The glob of [paths.views.src], parsed. *)
Definition views_glob : glob :=
  {| negated := false;
     segments := [Seg (map Lit (list_ascii_of_string "src"));
                  Seg (map Lit (list_ascii_of_string "views"));
                  Globstar;
                  Seg [Star]] |}.

(** [paths] as the template literals build it from any [dirs]. *)
Definition paths_from (d : dirs_t) : paths_t := {|
  p_views := {| src := One (entry d +:+ "/views/**/*");
                dest := output d |};
  p_media := {| src := One (entry d +:+ "/media/**/*.+(gif|jpg|jpeg|png|svg)");
                dest := output d +:+ "/static/media" |};
  p_styles := {| src := One (entry d +:+ "/styles/**/*.+(css|scss)");
                 dest := output d +:+ "/static/styles" |};
  p_scripts := {| src := Many [entry d +:+ "/scripts/**/*.js";
                               "!" +:+ entry d +:+ "/scripts/**/*.module.js"];
                  dest := output d +:+ "/static/scripts" |}
|}.

Definition configured_paths_from (d : dirs_t) : list string :=
  [entry d; output d]
  ++ flat_map (fun pe => glob_list (src pe) ++ [dest pe])
       [p_views (paths_from d); p_media (paths_from d);
        p_styles (paths_from d); p_scripts (paths_from d)].

(** Every event there is. *)
Definition all_events : list event :=
  map Invoke all_tasks ++ map Complete all_tasks.

(** The calls of [gulp.start] whose run is one run of the orchestrator:
    at least one name is given (without names every registered task is
    run), and the default task, whose function starts further runs
    through [runSequence], is not among them. *)
Definition direct_start (names : list task) : Prop :=
  names <> [] /\ ~ In default names.

(** The strings of [paths] alone, without the two directory names. *)
Definition built_paths_from (d : dirs_t) : list string :=
  flat_map (fun pe => glob_list (src pe) ++ [dest pe])
    [p_views (paths_from d); p_media (paths_from d);
     p_styles (paths_from d); p_scripts (paths_from d)].

(** The stages that change or replace the files passing through. *)
Definition transforms (s : stage) : bool :=
  match s with
  | Imagemin | Sass | Autoprefixer | CleanCSS | Named | Webpack _ => true
  | _ => false
  end.

(** The stages that let every file through unchanged after the write. *)
Definition passive (s : stage) : bool :=
  match s with
  | Noop | BrowserSyncStream => true
  | _ => false
  end.

(* ===================================================================== *)
(** * Properties *)
(* ===================================================================== *)

(** ** The environment flag and the port *)

Lemma isProd_spec (env : gmap string string) :
  isProd env = true <-> env !! "NODE_ENV" = Some "production".
Proof.
  unfold isProd, Js.env_get.
  destruct (env !! "NODE_ENV") as [v|]; simpl.
  - rewrite String.eqb_eq. split; congruence.
  - split; discriminate.
Qed.

Lemma serve_requests_config (rs : list request) (p : process) :
  p_config (fst (serve_requests p rs)) = p_config p
  /\ snd (serve_requests p rs)
     = map (fun r => match r with
                     | Call t => body (p_config p) t
                     | _ => []
                     end) rs.
Proof.
  revert p. induction rs as [|r rs IH]; intros p; [easy|].
  simpl. destruct (serve_request p r) as [p1 out] eqn:Hr.
  destruct (serve_requests p1 rs) as [p2 outs] eqn:Hrs.
  specialize (IH p1). rewrite Hrs in IH. simpl in *.
  assert (p_config p1 = p_config p /\ out = match r with
                                             | Call t => body (p_config p) t
                                             | _ => []
                                             end) as [Hc Ho].
  { destruct r; simpl in Hr; inversion Hr; subst; auto. }
  destruct IH as [IH1 IH2]. rewrite Hc in *. split; congruence.
Qed.

(** C4. The flag is [NODE_ENV === 'production'], computed once when the
    file is loaded: it is true exactly when the variable holds the string
    [production], and whatever is written to the environment afterwards,
    the stored configuration stays the one computed at startup and every
    task called later behaves as its body under that stored flag. *)
Theorem flag_read_once_at_startup (env : gmap string string) (rs : list request) :
  (isProd env = true <-> env !! "NODE_ENV" = Some "production")
  /\ c_isProd (p_config (startup env)) = isProd env
  /\ c_isProd (p_config (fst (serve_requests (startup env) rs))) = isProd env
  /\ snd (serve_requests (startup env) rs)
     = map (fun r => match r with
                     | Call t => body (load env) t
                     | _ => []
                     end) rs
  /\ (forall c t, pipeline c t = map (eval_slot (c_isProd c)) (slots c t))
  /\ (forall c, default_sequence c
                = [Single clean; Group compile]
                  ++ (if c_isProd c then [] else [Single serve; Single watch])).
Proof.
  split; [apply isProd_spec|].
  split; [reflexivity|].
  destruct (serve_requests_config rs (startup env)) as [Hc Ho].
  split; [now rewrite Hc|].
  split; [exact Ho|].
  split; [reflexivity|].
  intros c. unfold default_sequence. now destruct (c_isProd c).
Qed.

(** A run in which the environment is switched to production after
    startup: the styles task called afterwards is still the development
    chain. *)
Example flag_survives_setenv :
  snd (serve_requests (startup ∅) [SetEnv "NODE_ENV" "production"; Call styles])
  = [[]; body (load ∅) styles]
  /\ isProd (p_env (fst (serve_requests (startup ∅)
                          [SetEnv "NODE_ENV" "production"; Call styles]))) = true
  /\ In BrowserSyncStream (pipeline (load ∅) styles).
Proof. split; [reflexivity|]. split; [reflexivity|]. vm_compute. tauto. Qed.

Lemma load_depends_on_two (env1 env2 : gmap string string) :
  env1 !! "NODE_ENV" = env2 !! "NODE_ENV" ->
  env1 !! "PORT" = env2 !! "PORT" ->
  load env1 = load env2.
Proof.
  intros Hn Hp. unfold load, isProd, Js.env_get. now rewrite Hn, Hp.
Qed.

(** C6. The port handed to [browserSync.init] by the serve task is the
    value of [PORT] when it is set and not empty, and the number 3000
    otherwise; two environments that agree on [NODE_ENV] and [PORT] give
    the same configuration. *)
Theorem port_from_env (env1 env2 : gmap string string) :
  port (c_browserSync (load env1))
  = match env1 !! "PORT" with
    | Some s => if String.eqb s "" then Js.Num 3000 else Js.Str s
    | None => Js.Num 3000
    end
  /\ body (load env1) serve = [BrowserSyncInit (c_browserSync (load env1))]
  /\ (env1 !! "NODE_ENV" = env2 !! "NODE_ENV" ->
      env1 !! "PORT" = env2 !! "PORT" ->
      load env1 = load env2).
Proof.
  split; [|split; [reflexivity|apply load_depends_on_two]].
  unfold load, Js.or, Js.env_get; simpl.
  destruct (env1 !! "PORT") as [s|]; simpl; [|reflexivity].
  now destruct (String.eqb s "").
Qed.

Lemma port_from_env_witness :
  port (c_browserSync (load {["PORT" := "8080"; "HOME" := "/root"]})) = Js.Str "8080"
  /\ load {["PORT" := "8080"; "HOME" := "/root"]} = load {["PORT" := "8080"]}.
Proof.
  destruct (port_from_env {["PORT" := "8080"; "HOME" := "/root"]} {["PORT" := "8080"]})
    as (Hp & _ & Hl).
  split.
  - rewrite Hp. reflexivity.
  - apply Hl; reflexivity.
Defined.

(** ** Stages chosen by the flag *)

Ltac each_asset_task H :=
  unfold asset_tasks in H; simpl in H;
  repeat (destruct H as [H|H]; [subst|]); [..|contradiction].

(** C1. In every asset task each [.pipe] is either unconditional or a
    ternary on the flag with a no-op on one side: [cleanCSS] (styles) and
    [imagemin] (media) on the production side, [changed] and
    [browserSync.stream] on the development side.  So the minifying
    stages run exactly in production, in the task that has them, and the
    changed-files filter and the stream stage exactly in development; the
    scripts task has no ternary, its bundler is given the minify plugin
    exactly in production. *)
Theorem stages_chosen_by_flag (env : gmap string string) (t : task) :
  In t asset_tasks ->
  Forall (fun sl =>
            match sl with
            | Always _ => True
            | IfProd a b =>
                (b = Noop /\ ((t = styles /\ a = CleanCSS)
                              \/ (t = media /\ a = Imagemin)))
                \/ (a = Noop /\ (b = Changed (conventional_dest t)
                                 \/ b = BrowserSyncStream))
            end) (slots (load env) t)
  /\ (In CleanCSS (pipeline (load env) t) <-> t = styles /\ isProd env = true)
  /\ (In Imagemin (pipeline (load env) t) <-> t = media /\ isProd env = true)
  /\ (forall d, In (Changed d) (pipeline (load env) t)
                <-> (t = views \/ t = media \/ t = styles)
                    /\ d = conventional_dest t /\ isProd env = false)
  /\ (In BrowserSyncStream (pipeline (load env) t)
      <-> (t = media \/ t = styles) /\ isProd env = false)
  /\ (In (MinifyPlugin true) (plugins (c_webpack (load env)))
      <-> isProd env = true).
Proof.
  intros Ht. split.
  - each_asset_task Ht; simpl;
      repeat (constructor; [first [exact I | auto 8] |]); constructor.
  - unfold pipeline, load. cbn [c_isProd c_webpack plugins].
    each_asset_task Ht; destruct (isProd env); simpl;
      repeat split; intros;
      repeat match goal with
             | H : _ \/ _ |- _ => destruct H
             | H : _ /\ _ |- _ => destruct H
             | H : False |- _ => contradiction
             end;
      try discriminate; try congruence; auto;
      try match goal with
          | H : Changed _ = Changed _ |- _ => inversion H; reflexivity
          end;
      subst; simpl; auto 12.
Qed.

Lemma stages_chosen_by_flag_witness :
  In CleanCSS (pipeline (load {["NODE_ENV" := "production"]}) styles)
  <-> styles = styles /\ isProd {["NODE_ENV" := "production"]} = true.
Proof.
  apply (stages_chosen_by_flag {["NODE_ENV" := "production"]} styles).
  simpl. tauto.
Defined.

(** ** Error reporting *)

Lemma append_empty_r (s : string) : s +:+ "" = s.
Proof.
  induction s as [|ch s IH]; [reflexivity|].
  change (String ch (s +:+ "") = String ch s). now rewrite IH.
Qed.

Lemma render_from_0 (ch : ascii) (rest : string) (e : error) :
  render_from 0 (String ch rest) e
  = if String.prefix interpolation (String ch rest)
    then e_message e +:+ render_from (String.length interpolation - 1) rest e
    else String ch (render_from 0 rest e).
Proof. reflexivity. Qed.

Lemma render_skip_all (tpl : string) (e : error) (k : nat) :
  String.length tpl <= k -> render_from k tpl e = "".
Proof.
  revert k. induction tpl as [|ch tpl IH]; intros k Hk; [reflexivity|].
  destruct k as [|k]; simpl in Hk; [lia|].
  simpl. apply IH. lia.
Qed.

Lemma render_interpolation (e : error) :
  render interpolation e = e_message e.
Proof.
  unfold render.
  assert (Hp : String.prefix interpolation "<%= error.message %>" = true)
    by (vm_compute; reflexivity).
  change (render_from 0 interpolation e)
    with (render_from 0 (String "<" "%= error.message %>") e).
  rewrite render_from_0, Hp.
  rewrite render_skip_all by (vm_compute; lia).
  apply append_empty_r.
Qed.

Lemma render_plain_title (e : error) : render "Compile Error" e = "Compile Error".
Proof. reflexivity. Qed.

(** C3. Each of the four asset tasks installs one plumber stage, right
    after its source, and all four are given the same handler.  Called
    with an error, the handler makes exactly two calls, in this order:
    the gulp-notify reporter, which shows a notification titled
    [Compile Error] whose text is the error's message, and
    [this.emit('end')].  The stream therefore sees the notification and
    then [end] twice, once from the reporter and once from the handler.
    Nothing else happens: no stage or call retries or recovers. *)
Theorem single_error_callback (c : config) (t : task) (e : error) (more : list error) :
  In t asset_tasks ->
  List.filter is_plumber (pipeline c t) = [Plumber errorHandler]
  /\ nth_error (pipeline c t) 1 = Some (Plumber errorHandler)
  /\ (exists opts, errorHandler (e :: more)
                   = [NotifyOnError opts (e :: more); Emit "end"])
  /\ flat_map observe (errorHandler (e :: more))
     = [ Notified {| n_title := "Compile Error";
                     n_message := e_message e;
                     n_sound := "Funk" |};
         Emitted "end";
         Emitted "end" ].
Proof.
  intros Ht. repeat split.
  - unfold pipeline. each_asset_task Ht; destruct (c_isProd c); reflexivity.
  - unfold pipeline. each_asset_task Ht; reflexivity.
  - eexists. reflexivity.
  - change (flat_map observe (errorHandler (e :: more)))
      with [ Notified {| n_title := render "Compile Error" e;
                         n_message := render interpolation e;
                         n_sound := "Funk" |};
             Emitted "end";
             Emitted "end" ].
    now rewrite render_interpolation, render_plain_title.
Qed.

Lemma single_error_callback_witness :
  flat_map observe
    (errorHandler [{| e_message := "Undefined variable"; e_plugin := "gulp-sass" |}])
  = [ Notified {| n_title := "Compile Error";
                  n_message := "Undefined variable";
                  n_sound := "Funk" |};
      Emitted "end";
      Emitted "end" ].
Proof.
  apply (single_error_callback (load ∅) styles
           {| e_message := "Undefined variable"; e_plugin := "gulp-sass" |} []).
  simpl. tauto.
Defined.

(** ** Filesystem layout *)

(** C5. Each asset task reads the globs of its [paths] entry, all of
    them below [src/<task>/], and writes to one destination: [build] for
    views and [build/static/<task>] for media, styles and scripts. *)
Theorem layout_convention (c : config) (t : task) :
  In t asset_tasks ->
  exists pe,
    paths_of t = Some pe
    /\ head (pipeline c t) = Some (Src (src pe))
    /\ List.filter is_dest (pipeline c t) = [Dest (dest pe)]
    /\ Forall (fun g => String.prefix ("src/" +:+ task_name t +:+ "/") (strip_bang g) = true)
         (glob_list (src pe))
    /\ dest pe = match t with
                 | views => "build"
                 | _ => "build/static/" +:+ task_name t
                 end.
Proof.
  intros Ht. unfold pipeline.
  each_asset_task Ht; eexists; (split; [reflexivity|]);
    (split; [reflexivity|]);
    (split; [destruct (c_isProd c); reflexivity|]);
    (split; [|reflexivity]);
    repeat constructor.
Qed.

Lemma layout_convention_witness :
  exists pe,
    paths_of scripts = Some pe
    /\ head (pipeline (load ∅) scripts) = Some (Src (src pe))
    /\ List.filter is_dest (pipeline (load ∅) scripts) = [Dest (dest pe)]
    /\ Forall (fun g => String.prefix ("src/" +:+ task_name scripts +:+ "/") (strip_bang g) = true)
         (glob_list (src pe))
    /\ dest pe = "build/static/" +:+ task_name scripts.
Proof.
  apply (layout_convention (load ∅) scripts). simpl. tauto.
Defined.

(** ** Path strings *)

(** C7, counterexample. The media destination is a configured path and
    contains slashes, so not every configured path is slash-free. *)
Lemma configured_paths_with_slash :
  ~ (forall s, In s configured_paths -> s <> "" /\ has_slash s = false).
Proof.
  intros H. destruct (H (dest (p_media paths))) as [_ Hs].
  - vm_compute. tauto.
  - vm_compute in Hs. discriminate.
Qed.

(** C7, as the code has it. Every configured path string is non-empty
    and neither starts nor ends with a slash; the two directory names
    contain no slash at all. *)
Theorem configured_paths_no_outer_slash (s : string) :
  In s configured_paths ->
  s <> ""
  /\ leading_slash s = false
  /\ trailing_slash s = false
  /\ has_slash (entry dirs) = false
  /\ has_slash (output dirs) = false.
Proof.
  intros Hs. vm_compute in Hs.
  repeat (destruct Hs as [Hs|Hs]; [subst s; vm_compute; repeat split; discriminate|]).
  contradiction.
Qed.

Lemma configured_paths_no_outer_slash_witness :
  "build/static/media" <> ""
  /\ leading_slash "build/static/media" = false
  /\ trailing_slash "build/static/media" = false
  /\ has_slash (entry dirs) = false
  /\ has_slash (output dirs) = false.
Proof.
  apply (configured_paths_no_outer_slash "build/static/media").
  vm_compute. tauto.
Defined.

(** ** Runs of the orchestrator *)

Lemma mem_In (t : task) (l : list task) : mem t l = true <-> In t l.
Proof. unfold mem. rewrite bool_decide_eq_true. apply list_elem_of_In. Qed.

Lemma mem_not_In (t : task) (l : list task) : mem t l = false <-> ~ In t l.
Proof.
  rewrite <- mem_In. destruct (mem t l); split; congruence.
Qed.

Lemma orch_fire_invoke (o o' : orch) (t : task) :
  orch_fire o (Invoke t) = Some o' ->
  In t (o_seq o) /\ ~ In t (o_started o)
  /\ (forall d, In d (deps t) -> In d (o_done o))
  /\ o' = {| o_seq := o_seq o; o_started := t :: o_started o; o_done := o_done o |}.
Proof.
  simpl. destruct (mem t (o_seq o)) eqn:Hs; [|discriminate].
  destruct (mem t (o_started o)) eqn:Hst; [discriminate|].
  destruct (forallb _ (deps t)) eqn:Hd; [|discriminate].
  simpl. intros [= <-].
  rewrite mem_In in Hs. rewrite mem_not_In in Hst.
  rewrite forallb_forall in Hd.
  repeat split; auto. intros d Hin. apply mem_In. auto.
Qed.

Lemma orch_fire_complete (o o' : orch) (t : task) :
  orch_fire o (Complete t) = Some o' ->
  In t (o_started o) /\ ~ In t (o_done o)
  /\ o' = {| o_seq := o_seq o; o_started := o_started o; o_done := t :: o_done o |}.
Proof.
  simpl. destruct (mem t (o_started o)) eqn:Hs; [|discriminate].
  destruct (mem t (o_done o)) eqn:Hd; [discriminate|].
  simpl. intros [= <-].
  rewrite mem_In in Hs. rewrite mem_not_In in Hd. auto.
Qed.

Lemma orch_run_app (tr1 tr2 : list event) (o : orch) :
  orch_run o (tr1 ++ tr2)
  = match orch_run o tr1 with
    | Some o1 => orch_run o1 tr2
    | None => None
    end.
Proof.
  revert o. induction tr1 as [|e tr1 IH]; intros o; simpl; [reflexivity|].
  destruct (orch_fire o e); [apply IH | reflexivity].
Qed.

(** The state after a run records the events of the run: a task is among
    the started ones when it was so before or the run called it, among
    the complete ones when it was so before or the run completed it. *)
Lemma orch_run_records (tr : list event) (o o' : orch) :
  orch_run o tr = Some o' ->
  o_seq o' = o_seq o
  /\ (forall t, In t (o_started o') <-> In t (o_started o) \/ In (Invoke t) tr)
  /\ (forall t, In t (o_done o') <-> In t (o_done o) \/ In (Complete t) tr).
Proof.
  revert o. induction tr as [|e tr IH]; intros o; simpl.
  - intros [= <-]. repeat split; tauto.
  - destruct (orch_fire o e) as [o1|] eqn:Hf; [|discriminate].
    intros Hr. destruct (IH _ Hr) as (Hs & Hst & Hd).
    destruct e as [t|t].
    + apply orch_fire_invoke in Hf as (_ & _ & _ & ->). simpl in *.
      split; [exact Hs|]. split; intros u.
      * rewrite Hst. split; [intros [[->|]|]|intros [|[[= ->]|]]]; auto.
      * rewrite Hd. split; [intros [|]|intros [|[|]]]; auto; discriminate.
    + apply orch_fire_complete in Hf as (_ & _ & ->). simpl in *.
      split; [exact Hs|]. split; intros u.
      * rewrite Hst. split; [intros [|]|intros [|[|]]]; auto; discriminate.
      * rewrite Hd. split; [intros [[->|]|]|intros [|[[= ->]|]]]; auto.
Qed.

(** No event happens twice in a run that starts with nothing called. *)
Lemma orch_run_NoDup (tr : list event) (o o' : orch) :
  orch_run o tr = Some o' ->
  (forall t, In (Invoke t) tr -> ~ In t (o_started o))
  /\ (forall t, In (Complete t) tr -> ~ In t (o_done o))
  /\ NoDup tr.
Proof.
  revert o. induction tr as [|e tr IH]; intros o; simpl.
  - intros _. repeat split; try tauto. constructor.
  - destruct (orch_fire o e) as [o1|] eqn:Hf; [|discriminate].
    intros Hr. destruct (IH _ Hr) as (Hi & Hc & Hn).
    destruct e as [t|t].
    + apply orch_fire_invoke in Hf as (_ & Hns & _ & ->). simpl in *.
      repeat split.
      * intros u [[= ->]|Hu]; [exact Hns|]. intros Hin. apply (Hi u Hu). now right.
      * intros u [|Hu]; [discriminate|]. now apply Hc.
      * constructor; [|exact Hn]. rewrite list_elem_of_In.
        intros Hin. apply (Hi t Hin). now left.
    + apply orch_fire_complete in Hf as (_ & Hnd & ->). simpl in *.
      repeat split.
      * intros u [|Hu]; [discriminate|]. now apply Hi.
      * intros u [[= ->]|Hu]; [exact Hnd|]. intros Hin. apply (Hc u Hu). now right.
      * constructor; [|exact Hn]. rewrite list_elem_of_In.
        intros Hin. apply (Hc t Hin). now left.
Qed.

(** In a run of [gulp.start], a task function is called only after
    every task it depends on is complete, and a task completes only after
    it was called. *)
Lemma orch_run_order (names : list task) (l1 l2 : list event) (e : event) (o : orch) :
  orch_run (gulp_start names) (l1 ++ e :: l2) = Some o ->
  match e with
  | Invoke t => forall d, In d (deps t) -> In (Complete d) l1
  | Complete t => In (Invoke t) l1
  end.
Proof.
  rewrite orch_run_app.
  destruct (orch_run (gulp_start names) l1) as [o1|] eqn:H1; [|discriminate].
  simpl. destruct (orch_fire o1 e) as [o2|] eqn:Hf; [|discriminate]. intros _.
  destruct (orch_run_records _ _ _ H1) as (_ & Hst & Hd).
  destruct e as [t|t].
  - apply orch_fire_invoke in Hf as (_ & _ & Hdeps & _).
    intros d Hin. apply Hdeps, Hd in Hin. simpl in Hin. tauto.
  - apply orch_fire_complete in Hf as (Hs & _).
    apply Hst in Hs. simpl in Hs. tauto.
Qed.

Lemma orch_run_in_seq (tr : list event) (o o' : orch) :
  orch_run o tr = Some o' ->
  (forall t, In t (o_started o) -> In t (o_seq o)) ->
  forall t, In (Invoke t) tr \/ In (Complete t) tr -> In t (o_seq o).
Proof.
  revert o. induction tr as [|e tr IH]; intros o; simpl; [tauto|].
  destruct (orch_fire o e) as [o1|] eqn:Hf; [|discriminate].
  intros Hr Hsub t Ht.
  assert (o_seq o1 = o_seq o /\ (forall u, In u (o_started o1) -> In u (o_seq o1))
          /\ match e with Invoke u | Complete u => In u (o_seq o) end) as (Hs & Hsub1 & He).
  { destruct e as [u|u].
    - apply orch_fire_invoke in Hf as (Hu & _ & _ & ->). simpl.
      repeat split; auto. intros v [<-|Hv]; auto.
    - apply orch_fire_complete in Hf as (Hu & _ & ->). simpl.
      repeat split; auto. }
  rewrite <- Hs.
  destruct Ht as [[He'|Ht]|[He'|Ht]]; subst; try (rewrite Hs; exact He);
    apply (IH _ Hr Hsub1); auto.
Qed.

Lemma flat_map_split {A B : Type} (f : A -> list B) (l : list A)
      (l1 l2 : list B) (x : B) :
  flat_map f l = l1 ++ x :: l2 ->
  exists la e lb pre post,
    l = la ++ e :: lb /\ f e = pre ++ x :: post /\ l1 = flat_map f la ++ pre.
Proof.
  revert l1. induction l as [|a l IH]; intros l1 H; simpl in H.
  - destruct l1; discriminate.
  - apply app_eq_app in H as [m [[Ha Hm]|[Ha Hm]]].
    + destruct m as [|y m].
      * simpl in Hm. symmetry in Hm.
        destruct (IH [] Hm) as (la & e & lb & pre & post & -> & He & Hp).
        exists (a :: la), e, lb, pre, post. simpl.
        rewrite <- app_assoc, <- Hp, Ha, !app_nil_r. auto.
      * injection Hm as <- _.
        exists [], a, l, l1, m. simpl. auto.
    + destruct (IH m Hm) as (la & e & lb & pre & post & -> & He & Hp).
      exists (a :: la), e, lb, pre, post. simpl.
      rewrite Ha, Hp, app_assoc. auto.
Qed.

(** C8. In any run of [gulp.start], whatever tasks were asked for, a
    call of [browserSync.reload] comes from the body of [views:watch] or
    of [scripts:watch], and the task declared as its prerequisite ([views],
    [scripts]) has stopped earlier in the log. *)
Theorem reload_after_build (c : config) (names : list task) (tr : list event)
        (o : orch) (t : task) (l1 l2 : list log_entry) :
  orch_run (gulp_start names) tr = Some o ->
  log_of c tr = l1 ++ Performed t BrowserSyncReload :: l2 ->
  (t = views_watch /\ deps t = [views] /\ In (Stopped views) l1)
  \/ (t = scripts_watch /\ deps t = [scripts] /\ In (Stopped scripts) l1).
Proof.
  intros Hrun Hlog. unfold log_of in Hlog.
  apply flat_map_split in Hlog as (la & e & lb & pre & post & -> & He & ->).
  pose proof (orch_run_order _ _ _ _ _ Hrun) as Hord.
  assert (Hstop : forall d, In (Complete d) la ->
                            In (Stopped d) (flat_map (expand c) la ++ pre)).
  { intros d Hd. apply in_or_app. left. apply in_flat_map.
    exists (Complete d). simpl. auto. }
  destruct e as [u|u]; simpl in He.
  - assert (Hin : In (Performed t BrowserSyncReload)
                     (Called u :: map (Performed u) (body c u)))
      by (rewrite He; apply in_or_app; right; now left).
    destruct Hin as [Hin|Hin]; [discriminate|].
    apply in_map_iff in Hin as (a & [= -> ->] & Ha).
    destruct t; simpl in Ha;
      repeat (destruct Ha as [Ha|Ha]; [try discriminate|]); try contradiction.
    + left. repeat split; auto. apply Hstop, Hord. now left.
    + right. repeat split; auto. apply Hstop, Hord. now left.
  - destruct pre as [|x pre]; [discriminate He|].
    destruct pre; discriminate He.
Qed.

Lemma reload_after_build_witness :
  (views_watch = views_watch /\ deps views_watch = [views]
   /\ In (Stopped views)
        [Called views; Performed views (ReturnStream (pipeline (load ∅) views));
         Stopped views; Called views_watch])
  \/ (views_watch = scripts_watch /\ deps views_watch = [scripts]
      /\ In (Stopped scripts)
           [Called views; Performed views (ReturnStream (pipeline (load ∅) views));
            Stopped views; Called views_watch]).
Proof.
  eapply (reload_after_build (load ∅) [views_watch]
            [Invoke views; Complete views; Invoke views_watch; Complete views_watch]
            _ views_watch _ [Performed views_watch Done; Stopped views_watch]).
  - vm_compute. reflexivity.
  - reflexivity.
Defined.

(** A run that calls [views:watch] before [views] has stopped is not a
    run of the orchestrator. *)
Example reload_too_early_rejected :
  orch_run (gulp_start [views_watch]) [Invoke views; Invoke views_watch] = None
  /\ orch_accepts [views_watch]
       [Invoke views; Complete views; Invoke views_watch; Complete views_watch] = true.
Proof. split; vm_compute; reflexivity. Qed.

(** ** Runs of run-sequence *)

Lemma rs_run_within_step (tr : list event) (o : orch) (names : list task)
      (rest : list step) (st : rs_state) :
  rs_run {| rs_cur := o; rs_names := names; rs_rest := rest |} tr = Some st ->
  rs_finished st = true ->
  exists tc ts o1,
    tr = tc ++ ts
    /\ orch_run o tc = Some o1
    /\ stopped o1 names = true
    /\ rs_run {| rs_cur := o1; rs_names := names; rs_rest := rest |} ts = Some st.
Proof.
  revert o. induction tr as [|e tr IH]; intros o Hrun Hfin.
  - simpl in Hrun. injection Hrun as <-.
    unfold rs_finished in Hfin. simpl in Hfin.
    apply andb_true_iff in Hfin as [Hs _].
    exists [], [], o. auto.
  - destruct (stopped o names) eqn:Hs.
    + exists [], (e :: tr), o. auto.
    + simpl in Hrun. unfold rs_fire in Hrun. simpl in Hrun. rewrite Hs in Hrun.
      destruct (orch_fire o e) as [o'|] eqn:Hf; [|discriminate].
      destruct (IH o' Hrun Hfin) as (tc & ts & o1 & -> & Hr & Hst & Hts).
      exists (e :: tc), ts, o1. simpl. rewrite Hf. auto.
Qed.

Lemma rs_run_next_step (ts : list event) (o : orch) (names : list task)
      (s : step) (rest : list step) (st : rs_state) :
  stopped o names = true ->
  step_tasks s <> [] ->
  rs_run {| rs_cur := o; rs_names := names; rs_rest := s :: rest |} ts = Some st ->
  rs_finished st = true ->
  rs_run {| rs_cur := gulp_start (step_tasks s);
            rs_names := step_tasks s; rs_rest := rest |} ts = Some st.
Proof.
  intros Hs Hne Hrun Hfin. destruct ts as [|e ts].
  - simpl in Hrun. injection Hrun as <-.
    unfold rs_finished in Hfin. simpl in Hfin.
    rewrite andb_false_r in Hfin. discriminate.
  - simpl in *. unfold rs_fire in *. simpl in *. rewrite Hs in Hrun.
    destruct (step_tasks s) as [|t l] eqn:Hl; [congruence|].
    simpl. exact Hrun.
Qed.

Lemma rs_run_last_step (ts : list event) (o : orch) (names : list task)
      (st : rs_state) :
  stopped o names = true ->
  rs_run {| rs_cur := o; rs_names := names; rs_rest := [] |} ts = Some st ->
  ts = [].
Proof.
  intros Hs Hrun. destruct ts as [|e ts]; [reflexivity|].
  simpl in Hrun. unfold rs_fire in Hrun. simpl in Hrun.
  rewrite Hs in Hrun. discriminate.
Qed.

(** A complete run of [runSequence] is the run of the first task set,
    then the run of the second, and so on. *)
Lemma rs_run_steps (rest : list step) (tr : list event) (o : orch)
      (names : list task) (st : rs_state) :
  Forall (fun s => step_tasks s <> []) rest ->
  rs_run {| rs_cur := o; rs_names := names; rs_rest := rest |} tr = Some st ->
  rs_finished st = true ->
  exists tc ts o1,
    tr = tc ++ ts
    /\ orch_run o tc = Some o1
    /\ stopped o1 names = true
    /\ runs_steps rest ts.
Proof.
  revert tr o names. induction rest as [|s rest IH]; intros tr o names Hne Hrun Hfin;
    destruct (rs_run_within_step _ _ _ _ _ Hrun Hfin) as (tc & ts & o1 & -> & Hr & Hs & Hts);
    exists tc, ts, o1; repeat split; auto.
  - simpl. eapply rs_run_last_step; eauto.
  - inversion Hne as [|? ? Hs1 Hrest]; subst.
    apply rs_run_next_step in Hts; auto.
    destruct (IH _ _ _ Hrest Hts Hfin) as (tc' & ts' & o2 & -> & Hr' & Hs' & Hsteps).
    simpl. exists tc', ts', o2. auto.
Qed.

Lemma rs_accepts_steps (steps : list step) (tr : list event) :
  Forall (fun s => step_tasks s <> []) steps ->
  rs_accepts steps tr = true ->
  runs_steps steps tr.
Proof.
  intros Hne Hacc. unfold rs_accepts in Hacc.
  destruct (rs_run (run_sequence steps) tr) as [st|] eqn:Hrun; [|discriminate].
  destruct (rs_run_steps _ _ _ _ _ Hne Hrun Hacc) as (tc & ts & o1 & -> & Hr & _ & Hsteps).
  destruct tc as [|e tc]; [exact Hsteps|].
  simpl in Hr. destruct e; discriminate.
Qed.

Lemma orch_run_cons (o : orch) (e : event) (tr : list event) :
  orch_run o (e :: tr)
  = match orch_fire o e with
    | Some o' => orch_run o' tr
    | None => None
    end.
Proof. reflexivity. Qed.

(** Take the first event of the run in [H] and keep the cases in which
    the orchestrator lets it happen. *)
Ltac next_event H tr :=
  let e := fresh "e" in
  let o := fresh "o" in
  let Hf := fresh "Hf" in
  destruct tr as [|e tr];
  [ | rewrite orch_run_cons in H;
      match type of H with
      | match orch_fire ?o0 e with _ => _ end = _ =>
          destruct (orch_fire o0 e) as [o|] eqn:Hf; [|discriminate H];
          destruct e as [[]|[]]; vm_compute in Hf; try discriminate Hf;
          injection Hf as <-
      end ].

(** The run of a task set that holds one task without prerequisites: the
    task is called and completes, and nothing else happens. *)
Lemma single_step_run (t : task) (tc : list event) (o : orch) :
  t = clean \/ t = serve \/ t = watch ->
  orch_run (gulp_start [t]) tc = Some o ->
  stopped o [t] = true ->
  tc = [Invoke t; Complete t].
Proof.
  intros [-> | [-> | ->]] Hrun Hs.
  all: next_event Hrun tc;
    [injection Hrun as <-; vm_compute in Hs; discriminate|].
  all: next_event Hrun tc;
    [injection Hrun as <-; vm_compute in Hs; discriminate|].
  all: next_event Hrun tc; reflexivity.
Qed.

(** The run of any task set: no event twice, only tasks of the sequence,
    and every task of the set called and then completed. *)
Lemma step_run_shape (names : list task) (tc : list event) (o : orch) :
  orch_run (gulp_start names) tc = Some o ->
  stopped o names = true ->
  NoDup tc
  /\ (forall e, In e tc ->
                exists t, In t (o_seq (gulp_start names))
                          /\ (e = Invoke t \/ e = Complete t))
  /\ (forall t, In t names -> precedes (Invoke t) (Complete t) tc).
Proof.
  intros Hrun Hs. split; [|split].
  - eapply orch_run_NoDup; eauto.
  - intros e He. pose proof (orch_run_in_seq _ _ _ Hrun) as Hseq.
    destruct e as [t|t]; exists t; (split; [apply Hseq; simpl; tauto | tauto]).
  - intros t Ht. unfold stopped in Hs. rewrite forallb_forall in Hs.
    apply Hs, mem_In in Ht.
    destruct (orch_run_records _ _ _ Hrun) as (_ & _ & Hd).
    apply Hd in Ht as [Ht|Ht]; [contradiction|].
    apply in_split in Ht as (l1 & l2 & ->).
    pose proof (orch_run_order _ _ _ _ _ Hrun) as Hi. simpl in Hi.
    apply in_split in Hi as (a & b & ->).
    exists a, b, l2. now rewrite <- app_assoc.
Qed.

Lemma precedes_In {A : Type} (a b : A) (l : list A) :
  precedes a b l -> In a l /\ In b l.
Proof.
  intros (l1 & l2 & l3 & ->). split; apply in_or_app; right.
  - now left.
  - right. apply in_or_app. right. now left.
Qed.

Lemma default_steps_nonempty (c : config) :
  Forall (fun s => step_tasks s <> []) (default_sequence c).
Proof.
  unfold default_sequence. destruct (c_isProd c); repeat constructor; discriminate.
Qed.

(** C2. The default task hands [runSequence] one fixed list, and every
    complete run of it has this shape: [clean] is called and completes;
    then come the events of the four compile tasks, each of them called
    once and completed once after its call, and nothing else; then, in
    development, [serve] is called and completes and after it [watch];
    in production the run ends after the compile tasks. *)
Theorem default_task_sequencing (c : config) (tr : list event) :
  rs_accepts (default_sequence c) tr = true ->
  body c default = [RunSequence (default_sequence c)]
  /\ exists tc,
       tr = [Invoke clean; Complete clean] ++ tc
            ++ (if c_isProd c then []
                else [Invoke serve; Complete serve; Invoke watch; Complete watch])
       /\ NoDup tc
       /\ (forall e, In e tc <->
                     exists t, In t [views; media; styles; scripts]
                               /\ (e = Invoke t \/ e = Complete t))
       /\ (forall t, In t [views; media; styles; scripts] ->
                     precedes (Invoke t) (Complete t) tc).
Proof.
  intros Hacc. split; [reflexivity|].
  apply rs_accepts_steps in Hacc; [|apply default_steps_nonempty].
  unfold default_sequence in Hacc.
  assert (Hshape : forall tc o,
             orch_run (gulp_start compile) tc = Some o ->
             stopped o compile = true ->
             NoDup tc
             /\ (forall e, In e tc <->
                           exists t, In t [views; media; styles; scripts]
                                     /\ (e = Invoke t \/ e = Complete t))
             /\ (forall t, In t [views; media; styles; scripts] ->
                           precedes (Invoke t) (Complete t) tc)).
  { intros tc o Hr Hs.
    destruct (step_run_shape _ _ _ Hr Hs) as (Hn & Hin & Hp).
    split; [exact Hn|]. split; [|exact Hp].
    intros e. split; [apply Hin|].
    intros (t & Ht & [-> | ->]); apply Hp, precedes_In in Ht; tauto. }
  destruct (c_isProd c); simpl in Hacc.
  - destruct Hacc as (t1 & r1 & o1 & -> & Hr1 & Hs1 & t2 & r2 & o2 & -> & Hr2 & Hs2 & ->).
    apply single_step_run in Hr1; auto. subst t1.
    exists t2. rewrite app_nil_r. split; [reflexivity|]. eapply Hshape; eauto.
  - destruct Hacc as (t1 & r1 & o1 & -> & Hr1 & Hs1 & t2 & r2 & o2 & -> & Hr2 & Hs2
                      & t3 & r3 & o3 & -> & Hr3 & Hs3 & t4 & r4 & o4 & -> & Hr4 & Hs4 & ->).
    apply single_step_run in Hr1; auto.
    apply single_step_run in Hr3; auto.
    apply single_step_run in Hr4; auto. subst t1 t3 t4.
    exists t2. split; [reflexivity|]. eapply Hshape; eauto.
Qed.

Lemma default_task_sequencing_witness :
  exists tc,
    dev_trace
    = [Invoke clean; Complete clean] ++ tc
      ++ (if c_isProd (load ∅) then []
          else [Invoke serve; Complete serve; Invoke watch; Complete watch])
    /\ NoDup tc
    /\ (forall e, In e tc <->
                  exists t, In t [views; media; styles; scripts]
                            /\ (e = Invoke t \/ e = Complete t))
    /\ (forall t, In t [views; media; styles; scripts] ->
                  precedes (Invoke t) (Complete t) tc).
Proof.
  apply (default_task_sequencing (load ∅) dev_trace).
  vm_compute. reflexivity.
Defined.

(** A trace in which a compile task is called before [clean] has
    completed, and a production trace that goes on to [serve], are not
    runs of the default task. *)
Example default_rejects_out_of_order :
  rs_accepts (default_sequence (load ∅))
    [Invoke clean; Invoke views; Complete clean; Complete views] = false
  /\ rs_accepts (default_sequence (load {["NODE_ENV" := "production"]}))
       [Invoke clean; Complete clean;
        Invoke views; Invoke media; Invoke styles; Invoke scripts;
        Complete views; Complete media; Complete styles; Complete scripts;
        Invoke serve; Complete serve] = false
  /\ rs_accepts (default_sequence (load {["NODE_ENV" := "production"]}))
       [Invoke clean; Complete clean;
        Invoke views; Invoke media; Invoke styles; Invoke scripts;
        Complete views; Complete media; Complete styles; Complete scripts] = true.
Proof. repeat split; vm_compute; reflexivity. Qed.

(** ** Glob matching *)

Lemma match_atoms_star (pat : list atom) (s : string) :
  match_atoms (Star :: pat) s
  = match_atoms pat s
    || match s with
       | String _ s' => match_atoms (Star :: pat) s'
       | EmptyString => false
       end.
Proof. destruct s; reflexivity. Qed.

Lemma match_path_globstar (ps : list seg_pat) (segs : path) :
  match_path (Globstar :: ps) segs
  = match_path ps segs
    || match segs with
       | s :: segs' => negb (hidden s) && match_path (Globstar :: ps) segs'
       | [] => false
       end.
Proof. destruct segs; reflexivity. Qed.

(** A pattern of literals matches exactly the name it spells. *)
Lemma match_literal (cs : list ascii) (s : string) :
  match_atoms (map Lit cs) s = true <-> s = string_of_list_ascii cs.
Proof.
  revert s. induction cs as [|ch cs IH]; intros s; simpl.
  - apply String.eqb_eq.
  - destruct s as [|d s]; [split; discriminate|].
    rewrite andb_true_iff, Ascii.eqb_eq, IH.
    split; [intros [-> ->]; reflexivity | intros [= -> ->]; auto].
Qed.

(** A wildcard followed by literals matches exactly the names that end
    in those literals. *)
Lemma match_suffix (cs : list ascii) (s : string) :
  match_atoms (Star :: map Lit cs) s = true
  <-> ends_in (string_of_list_ascii cs) s.
Proof.
  split.
  - induction s as [|d s IH]; rewrite match_atoms_star, orb_true_iff.
    + intros [H|H]; [|discriminate]. apply match_literal in H.
      exists "". exact H.
    + intros [H|H].
      * apply match_literal in H. exists "". exact H.
      * destruct (IH H) as [stem ->]. now exists (String d stem).
  - intros [stem ->]. induction stem as [|d stem IH];
      rewrite match_atoms_star, orb_true_iff.
    + left. now apply match_literal.
    + right. exact IH.
Qed.

(** The globstar stands for a run of directories that are not hidden. *)
Lemma match_globstar (ps : list seg_pat) (segs : path) :
  match_path (Globstar :: ps) segs = true
  <-> exists ds rest,
        segs = ds ++ rest
        /\ Forall (fun d => hidden d = false) ds
        /\ match_path ps rest = true.
Proof.
  split.
  - induction segs as [|s segs IH]; rewrite match_path_globstar, orb_true_iff.
    + intros [H|H]; [|discriminate]. exists [], []. auto.
    + intros [H|H].
      * exists [], (s :: segs). auto.
      * apply andb_true_iff in H as [Hs H]. apply negb_true_iff in Hs.
        destruct (IH H) as (ds & rest & -> & Hds & Hm).
        exists (s :: ds), rest. auto.
  - intros (ds & rest & -> & Hds & Hm).
    induction Hds as [|d ds Hd Hds IH].
    + rewrite match_path_globstar, orb_true_iff. now left.
    + rewrite <- app_comm_cons, match_path_globstar, orb_true_iff.
      right. rewrite Hd. exact IH.
Qed.

Lemma match_one_segment (atoms : list atom) (segs : path) :
  match_path [Seg atoms] segs = true
  <-> exists name, segs = [name] /\ match_seg atoms name = true.
Proof.
  simpl. destruct segs as [|s [|s' segs]]; split;
    try discriminate; try (intros (name & [=] & _); fail).
  - rewrite andb_true_r. intros H. now exists s.
  - intros (name & [= <-] & H). now rewrite H.
  - rewrite andb_false_r. discriminate.
Qed.

(** A name that ends in a suffix which starts with a period and is not
    hidden has a stem, so it is not empty. *)
Lemma match_seg_suffix (cs : list ascii) (name : string) :
  match_seg (Star :: map Lit cs) name = true
  <-> hidden name = false /\ name <> "" /\ ends_in (string_of_list_ascii cs) name.
Proof.
  unfold match_seg. rewrite !andb_true_iff, !negb_true_iff, match_suffix.
  split; intros [[Hh Hn] He] || intros (Hh & Hn & He); repeat split; auto.
  - intros ->. discriminate.
  - destruct name; [congruence | reflexivity].
Qed.

Lemma ends_in_nonempty (suffix name : string) :
  suffix <> "" -> ends_in suffix name -> name <> "".
Proof.
  intros Hs [stem ->]. destruct stem as [|ch stem]; [exact Hs | discriminate].
Qed.

Lemma scripts_globs_parse :
  parse_globs (glob_list (src (p_scripts paths)))
  = Some [scripts_include; scripts_exclude].
Proof. vm_compute. reflexivity. Qed.

(** What a glob [src/scripts/**/*<suffix>] matches. *)
Lemma match_below_scripts (suffix : string) (p : path) :
  suffix <> "" ->
  match_path [Seg (map Lit (list_ascii_of_string "src"));
              Seg (map Lit (list_ascii_of_string "scripts"));
              Globstar;
              Seg (Star :: map Lit (list_ascii_of_string suffix))] p = true
  <-> exists ds name,
        under_scripts p ds name
        /\ Forall (fun d => hidden d = false) ds
        /\ hidden name = false
        /\ ends_in suffix name.
Proof.
  intros Hne. unfold under_scripts.
  assert (Hsuf : forall name,
             match_seg (Star :: map Lit (list_ascii_of_string suffix)) name = true
             <-> hidden name = false /\ ends_in suffix name).
  { intros name. rewrite match_seg_suffix, string_of_list_ascii_of_string.
    split; [tauto|]. intros [Hh He]. repeat split; auto.
    eapply ends_in_nonempty; eauto. }
  split.
  - destruct p as [|s1 [|s2 rest]]; simpl; try discriminate;
      try (rewrite andb_false_r; discriminate).
    change (match_seg (map Lit (list_ascii_of_string "src")) s1
            && (match_seg (map Lit (list_ascii_of_string "scripts")) s2
                && match_path [Globstar; Seg (Star :: map Lit (list_ascii_of_string suffix))] rest)
            = true -> exists ds name,
                s1 :: s2 :: rest = ["src"; "scripts"] ++ ds ++ [name]
                /\ Forall (fun d => hidden d = false) ds
                /\ hidden name = false /\ ends_in suffix name).
    rewrite !andb_true_iff. intros (H1 & H2 & H3).
    apply (match_literal (list_ascii_of_string "src")) in H1.
    apply (match_literal (list_ascii_of_string "scripts")) in H2.
    apply match_globstar in H3 as (ds & tl & -> & Hds & Hm).
    apply match_one_segment in Hm as (name & -> & Hm).
    apply Hsuf in Hm as [Hh He].
    exists ds, name. subst s1 s2. auto.
  - intros (ds & name & -> & Hds & Hh & He).
    change (match_seg (map Lit (list_ascii_of_string "src")) "src"
            && (match_seg (map Lit (list_ascii_of_string "scripts")) "scripts"
                && match_path [Globstar; Seg (Star :: map Lit (list_ascii_of_string suffix))]
                     (ds ++ [name])) = true).
    apply andb_true_iff. split; [vm_compute; reflexivity|].
    apply andb_true_iff. split; [vm_compute; reflexivity|].
    apply match_globstar. exists ds, [name]. repeat split; auto.
    apply match_one_segment. exists name. split; [reflexivity|].
    apply Hsuf. auto.
Qed.

(** ** The files the scripts task reads *)

Lemma scripts_selects_eq (p : path) :
  scripts_selects p
  = Some (match_path (segments scripts_include) p
          && negb (match_path (segments scripts_exclude) p)).
Proof.
  unfold scripts_selects. rewrite scripts_globs_parse.
  unfold gulp_src. cbn [negated scripts_include scripts_exclude existsb segments andb].
  now rewrite !orb_false_r.
Qed.

Lemma under_scripts_unique (p : path) (ds ds' : list string) (name name' : string) :
  under_scripts p ds name -> under_scripts p ds' name' -> ds = ds' /\ name = name'.
Proof.
  unfold under_scripts. intros -> H.
  injection H as H. now apply app_inj_tail in H.
Qed.

Lemma scripts_selects_iff (p : path) :
  scripts_selects p = Some true
  <-> exists ds name,
        under_scripts p ds name
        /\ Forall (fun d => hidden d = false) ds
        /\ hidden name = false
        /\ ends_in ".js" name
        /\ ~ ends_in ".module.js" name.
Proof.
  rewrite scripts_selects_eq.
  assert (Hin : match_path (segments scripts_include) p = true
                <-> exists ds name,
                      under_scripts p ds name
                      /\ Forall (fun d => hidden d = false) ds
                      /\ hidden name = false /\ ends_in ".js" name)
    by (apply (match_below_scripts ".js"); discriminate).
  assert (Hout : match_path (segments scripts_exclude) p = true
                 <-> exists ds name,
                       under_scripts p ds name
                       /\ Forall (fun d => hidden d = false) ds
                       /\ hidden name = false /\ ends_in ".module.js" name)
    by (apply (match_below_scripts ".module.js"); discriminate).
  split.
  - intros [= H]. apply andb_true_iff in H as [H1 H2].
    apply negb_true_iff in H2.
    apply Hin in H1 as (ds & name & Hu & Hds & Hh & He).
    exists ds, name. repeat split; auto.
    intros Hm. apply not_true_iff_false in H2. apply H2.
    apply Hout. exists ds, name. auto.
  - intros (ds & name & Hu & Hds & Hh & He & Hn). f_equal.
    apply andb_true_iff. split.
    + apply Hin. exists ds, name. auto.
    + apply negb_true_iff, not_true_iff_false. intros Hm.
      apply Hout in Hm as (ds' & name' & Hu' & _ & _ & He').
      destruct (under_scripts_unique _ _ _ _ _ Hu Hu') as [_ <-]. contradiction.
Qed.

(** C9, counterexample. [src/scripts/.eslintrc.js] lies under
    [src/scripts] and its name ends in [.js] and not in [.module.js], yet
    the scripts task does not read it: the wildcard does not match a name
    that starts with a period. *)
Lemma hidden_script_not_selected :
  ~ (forall p, scripts_selects p = Some true
               <-> exists ds name,
                     under_scripts p ds name
                     /\ ends_in ".js" name
                     /\ ~ ends_in ".module.js" name).
Proof.
  intros H. specialize (H ["src"; "scripts"; ".eslintrc.js"]).
  destruct H as [_ H].
  assert (scripts_selects ["src"; "scripts"; ".eslintrc.js"] = Some true) as Hsel.
  { apply H. exists [], ".eslintrc.js". repeat split.
    - now exists ".eslintrc".
    - intros Hm. apply (match_suffix (list_ascii_of_string ".module.js")) in Hm.
      vm_compute in Hm. discriminate. }
  vm_compute in Hsel. discriminate.
Qed.

(** C9, as the code has it. The globs of the scripts task parse to one
    inclusion and one exclusion, and a path is read exactly when the
    first matches it and the second does not.  These are the files below
    [src/scripts] whose name ends in [.js] and not in [.module.js], where
    neither the name nor a directory on the way starts with a period.  So
    a file whose name ends in [.module.js] is never read. *)
Theorem scripts_input_selection (c : config) (p : path) :
  head (pipeline c scripts) = Some (Src (src (p_scripts paths)))
  /\ parse_globs (glob_list (src (p_scripts paths)))
     = Some [scripts_include; scripts_exclude]
  /\ scripts_selects p
     = Some (match_path (segments scripts_include) p
             && negb (match_path (segments scripts_exclude) p))
  /\ (scripts_selects p = Some true
      <-> exists ds name,
            under_scripts p ds name
            /\ Forall (fun d => hidden d = false) ds
            /\ hidden name = false
            /\ ends_in ".js" name
            /\ ~ ends_in ".module.js" name)
  /\ (forall name, last p = Some name -> ends_in ".module.js" name ->
                   scripts_selects p = Some false).
Proof.
  split; [reflexivity|]. split; [apply scripts_globs_parse|].
  split; [apply scripts_selects_eq|]. split; [apply scripts_selects_iff|].
  intros name Hl Hm.
  destruct (scripts_selects p) as [[|]|] eqn:Hs; try reflexivity.
  - apply scripts_selects_iff in Hs as (ds & name' & Hu & _ & _ & _ & Hn).
    unfold under_scripts in Hu. subst p.
    rewrite !app_assoc, last_snoc in Hl. injection Hl as ->. contradiction.
  - rewrite scripts_selects_eq in Hs. discriminate.
Qed.

Lemma scripts_input_selection_witness :
  scripts_selects ["src"; "scripts"; "lib"; "util.module.js"] = Some false
  /\ scripts_selects ["src"; "scripts"; "lib"; "main.js"] = Some true.
Proof.
  split.
  - apply (scripts_input_selection (load ∅) ["src"; "scripts"; "lib"; "util.module.js"])
      with (name := "util.module.js"); [reflexivity|]. now exists "util".
  - vm_compute. reflexivity.
Defined.

(** ** The clean task *)

Lemma output_glob_parse : parse_globs [output dirs] = Some [output_glob].
Proof. vm_compute. reflexivity. Qed.

Lemma ancestors_nonempty (p : path) : ~ In [] (ancestors p).
Proof.
  destruct p as [|s p]; simpl; [tauto|].
  intros [H|H]; [discriminate|].
  apply in_map_iff in H as (q & H & _). discriminate.
Qed.

Lemma ancestors_singleton (s : string) (p : path) :
  In [s] (ancestors p) <-> head p = Some s.
Proof.
  destruct p as [|s0 p]; simpl; [split; [tauto | discriminate]|].
  split.
  - intros [[= ->]|H]; [reflexivity|].
    apply in_map_iff in H as (q & [= -> ->] & Hq).
    now apply ancestors_nonempty in Hq.
  - intros [= ->]. now left.
Qed.

(** [del(['build'])] removes exactly the paths whose first segment is
    [build]. *)
Lemma del_removes_output (p : path) :
  del_removes [output_glob] p = true <-> head p = Some (output dirs).
Proof.
  unfold del_removes. rewrite existsb_exists.
  assert (Hq : forall q, gulp_src [output_glob] q = true <-> q = [output dirs]).
  { intros q. unfold gulp_src.
    cbn [negated output_glob existsb segments negb].
    rewrite orb_false_r, andb_true_r, match_one_segment.
    split.
    - intros (name & -> & Hm).
      apply (match_literal (list_ascii_of_string (output dirs))) in Hm.
      now subst name.
    - intros ->. exists (output dirs). split; [reflexivity|].
      vm_compute. reflexivity. }
  split.
  - intros (q & Hin & Hm). apply Hq in Hm. subst q.
    now apply ancestors_singleton.
  - intros Hh. exists [output dirs]. split.
    + now apply ancestors_singleton.
    + now apply Hq.
Qed.

(** C10. The clean task calls [del] with the one pattern [build].  It
    always succeeds, every path below [build] is gone afterwards, and
    every other path, so every path below [src], holds what it held. *)
Theorem clean_deletes_only_output (c : config) (fs : filesystem) :
  body c clean = [Del ["build"]]
  /\ exists fs',
       run_clean c fs = Some fs'
       /\ (forall p, head p = Some "build" -> fs' !! p = None)
       /\ (forall p, head p <> Some "build" -> fs' !! p = fs !! p)
       /\ (forall p, head p = Some "src" -> fs' !! p = fs !! p).
Proof.
  split; [reflexivity|].
  unfold run_clean, del. cbn [body]. rewrite output_glob_parse.
  eexists. split; [reflexivity|].
  assert (Hkeep : forall p, head p <> Some "build" ->
            filter (fun kv => del_removes [output_glob] kv.1 = false) fs !! p = fs !! p).
  { intros p Hp.
    assert (Hr : del_removes [output_glob] p = false).
    { apply not_true_iff_false. intros Hr. now apply del_removes_output in Hr. }
    destruct (fs !! p) as [x|] eqn:Hx.
    - apply map_lookup_filter_Some_2; auto.
    - apply map_lookup_filter_None_2. now left. }
  split; [|split; [exact Hkeep|]].
  - intros p Hp. apply map_lookup_filter_None_2. right. intros x _. simpl.
    apply del_removes_output in Hp. rewrite Hp. discriminate.
  - intros p Hp. apply Hkeep. rewrite Hp. discriminate.
Qed.

Lemma clean_deletes_only_output_witness :
  exists fs',
    run_clean (load ∅)
      {[ ["src"; "views"; "index.html"] := "<html>";
         ["build"; "index.html"] := "<html>" ]} = Some fs'
    /\ fs' !! ["build"; "index.html"] = None
    /\ fs' !! ["src"; "views"; "index.html"] = Some "<html>".
Proof.
  destruct (clean_deletes_only_output (load ∅)
              {[ ["src"; "views"; "index.html"] := "<html>";
                 ["build"; "index.html"] := "<html>" ]})
    as (_ & fs' & Hrun & Hgone & _ & Hsrc).
  exists fs'. split; [exact Hrun|]. split.
  - apply Hgone. reflexivity.
  - rewrite Hsrc by reflexivity. vm_compute. reflexivity.
Defined.

(** * Further properties of the tasks *)

(** ** What the views task reads *)


Lemma views_glob_parse :
  parse_globs (glob_list (src (p_views paths))) = Some [views_glob].
Proof. vm_compute. reflexivity. Qed.



Lemma task_reads_views (p : path) :
  task_reads views p = Some (match_path (segments views_glob) p).
Proof.
  unfold task_reads, selects. cbn [paths_of]. rewrite views_glob_parse.
  unfold gulp_src. cbn [negated views_glob existsb segments negb].
  now rewrite orb_false_r, andb_true_r.
Qed.


Example views_skips_dotfiles :
  task_reads views ["src"; "views"; ".htaccess"] = Some false
  /\ task_reads views ["src"; "views"; ".well-known"; "security.txt"] = Some false
  /\ task_reads views ["src"; "views"; "about"; "index.html"] = Some true.
Proof. repeat split; vm_compute; reflexivity. Qed.

(** ** The scripts watcher *)

Lemma string_app_assoc (a b c : string) : (a +:+ b) +:+ c = a +:+ (b +:+ c).
Proof.
  induction a as [|ch a IH]; [reflexivity|].
  change (String ch ((a +:+ b) +:+ c) = String ch (a +:+ (b +:+ c))).
  now rewrite IH.
Qed.

Lemma ends_in_longer (pre suffix name : string) :
  ends_in (pre +:+ suffix) name -> ends_in suffix name.
Proof.
  intros [stem ->]. exists (stem +:+ pre). now rewrite string_app_assoc.
Qed.

Lemma scripts_watcher_glob (c : config) (g : option globs) :
  In (GulpWatch g [scripts_watch]) (body c watch) ->
  g = Some (One "src/scripts/**/*.js").
Proof.
  simpl. intros [H|[H|[H|[H|[]]]]]; try discriminate H.
  injection H as <-. reflexivity.
Qed.

Lemma scripts_watcher_matches (p : path) :
  watch_matches (Some (One "src/scripts/**/*.js")) p
  = Some (match_path (segments scripts_include) p).
Proof.
  unfold watch_matches, selects.
  assert (parse_globs (glob_list (One "src/scripts/**/*.js")) = Some [scripts_include])
    as -> by (vm_compute; reflexivity).
  unfold gulp_src. cbn [negated scripts_include existsb segments negb].
  now rewrite orb_false_r, andb_true_r.
Qed.

(** X2. The scripts watcher is given only the first glob of
    [paths.scripts.src], the inclusion.  So it fires for every file the
    scripts task reads, and also for the visible [*.module.js] files
    below [src/scripts], which the task never reads as entries: editing
    a module re-runs the bundle. *)
Theorem scripts_watcher_covers_modules (c : config) (g : option globs) (p : path) :
  In (GulpWatch g [scripts_watch]) (body c watch) ->
  (scripts_selects p = Some true -> watch_matches g p = Some true)
  /\ (forall ds name,
         under_scripts p ds name ->
         Forall (fun d => hidden d = false) ds ->
         hidden name = false ->
         ends_in ".module.js" name ->
         watch_matches g p = Some true /\ scripts_selects p = Some false).
Proof.
  intros Hg. apply scripts_watcher_glob in Hg as ->.
  rewrite scripts_watcher_matches, scripts_selects_eq.
  split.
  - destruct (match_path (segments scripts_include) p);
      [intros _; reflexivity | intros H; discriminate H].
  - intros ds name Hu Hds Hh He.
    assert (Hin : match_path (segments scripts_include) p = true).
    { apply (match_below_scripts ".js"); [discriminate|].
      exists ds, name. repeat split; auto.
      apply (ends_in_longer ".module" ".js"). exact He. }
    assert (Hout : match_path (segments scripts_exclude) p = true).
    { apply (match_below_scripts ".module.js"); [discriminate|].
      exists ds, name. auto. }
    now rewrite Hin, Hout.
Qed.

Lemma scripts_watcher_covers_modules_witness :
  watch_matches (glob_at (src (p_scripts paths)) 0)
    ["src"; "scripts"; "lib"; "util.module.js"] = Some true
  /\ scripts_selects ["src"; "scripts"; "lib"; "util.module.js"] = Some false.
Proof.
  apply (scripts_watcher_covers_modules (load ∅) _
           ["src"; "scripts"; "lib"; "util.module.js"])
    with (ds := ["lib"]) (name := "util.module.js").
  - simpl. tauto.
  - reflexivity.
  - repeat constructor.
  - reflexivity.
  - now exists "util".
Defined.

(** ** Outputs and inputs *)

Lemma match_first_literal (lit : string) (ps : list seg_pat) (p : path) :
  match_path (Seg (map Lit (list_ascii_of_string lit)) :: ps) p = true ->
  head p = Some lit.
Proof.
  destruct p as [|s p]; simpl; [discriminate|].
  rewrite andb_true_iff. intros [H _]. f_equal.
  assert (match_seg (map Lit (list_ascii_of_string lit)) s
          = match_atoms (map Lit (list_ascii_of_string lit)) s) as E
    by (destruct (list_ascii_of_string lit); reflexivity).
  rewrite E, match_literal, string_of_list_ascii_of_string in H. exact H.
Qed.

Lemma written_under_output (t : task) (pe : path_entry) (rel : path) :
  paths_of t = Some pe ->
  head (written_under (dest pe) rel) = Some (output dirs).
Proof.
  destruct t; intros [= <-]; reflexivity.
Qed.

Lemma views_watcher_glob (c : config) (g : option globs) :
  In (GulpWatch g [views_watch]) (body c watch) ->
  g = Some (src (p_views paths)).
Proof.
  simpl. intros [H|[H|[H|[H|[]]]]]; try discriminate H.
  injection H as <-. reflexivity.
Qed.

(** X3. No file that an asset task writes is read by the views task or
    the scripts task, and neither the views watcher nor the scripts
    watcher fires for it: a build never feeds on its own output. *)
Theorem built_files_never_read (c : config) (t : task) (pe : path_entry)
        (rel : path) (g : option globs) (ts : list task) :
  paths_of t = Some pe ->
  In (GulpWatch g ts) (body c watch) ->
  ts = [views_watch] \/ ts = [scripts_watch] ->
  task_reads views (written_under (dest pe) rel) = Some false
  /\ scripts_selects (written_under (dest pe) rel) = Some false
  /\ watch_matches g (written_under (dest pe) rel) = Some false.
Proof.
  intros Hpe Hg Hts.
  pose proof (written_under_output t pe rel Hpe) as Hhead.
  set (p := written_under (dest pe) rel) in *.
  assert (Hv : match_path (segments views_glob) p = false).
  { apply not_true_iff_false. intros H.
    apply (match_first_literal "src") in H. rewrite Hhead in H. discriminate. }
  assert (Hs : match_path (segments scripts_include) p = false).
  { apply not_true_iff_false. intros H.
    apply (match_first_literal "src") in H. rewrite Hhead in H. discriminate. }
  split; [now rewrite task_reads_views, Hv|].
  split; [now rewrite scripts_selects_eq, Hs|].
  destruct Hts as [-> | ->].
  - apply views_watcher_glob in Hg as ->.
    change (task_reads views p = Some false). now rewrite task_reads_views, Hv.
  - apply scripts_watcher_glob in Hg as ->.
    now rewrite scripts_watcher_matches, Hs.
Qed.

Lemma built_files_never_read_witness :
  task_reads views ["build"; "static"; "scripts"; "main.js"] = Some false
  /\ scripts_selects ["build"; "static"; "scripts"; "main.js"] = Some false
  /\ watch_matches (glob_at (src (p_scripts paths)) 0)
       ["build"; "static"; "scripts"; "main.js"] = Some false.
Proof.
  apply (built_files_never_read (load ∅) scripts (p_scripts paths) ["main.js"]
           _ [scripts_watch]).
  - reflexivity.
  - simpl. tauto.
  - now right.
Defined.

(** ** Clean and the build output *)

Lemma run_clean_lookup (c : config) (fs fs' : filesystem) (p : path) :
  run_clean c fs = Some fs' ->
  fs' !! p = if del_removes [output_glob] p then None else fs !! p.
Proof.
  unfold run_clean, del. cbn [body]. rewrite output_glob_parse.
  intros [= <-].
  destruct (del_removes [output_glob] p) eqn:Hr.
  - apply map_lookup_filter_None_2. right. intros x _. simpl.
    rewrite Hr. discriminate.
  - destruct (fs !! p) as [x|] eqn:Hx.
    + apply map_lookup_filter_Some_2; auto.
    + apply map_lookup_filter_None_2. now left.
Qed.

(** X4. Every file an asset task writes lies in the directory the
    development server serves, and the clean task removes it: after
    clean nothing that any build wrote is left. *)
Theorem clean_removes_every_output (env : gmap string string) (t : task)
        (pe : path_entry) (rel : path) (fs fs' : filesystem) :
  paths_of t = Some pe ->
  run_clean (load env) fs = Some fs' ->
  head (written_under (dest pe) rel) = Some (baseDir (c_browserSync (load env)))
  /\ fs' !! written_under (dest pe) rel = None.
Proof.
  intros Hpe Hrun.
  pose proof (written_under_output t pe rel Hpe) as Hhead.
  split; [exact Hhead|].
  rewrite (run_clean_lookup _ _ _ _ Hrun).
  apply del_removes_output in Hhead. now rewrite Hhead.
Qed.

Lemma clean_removes_every_output_witness :
  exists fs',
    run_clean (load ∅) {[ ["build"; "static"; "styles"; "site.css"] := "body{}" ]}
    = Some fs'
    /\ head (written_under (dest (p_styles paths)) ["site.css"]) = Some "build"
    /\ fs' !! written_under (dest (p_styles paths)) ["site.css"] = None.
Proof.
  assert (H : exists fs',
             run_clean (load ∅)
               {[ ["build"; "static"; "styles"; "site.css"] := "body{}" ]} = Some fs').
  { unfold run_clean, del. cbn [body]. rewrite output_glob_parse.
    eexists. reflexivity. }
  destruct H as [fs' H]. exists fs'. split; [exact H|].
  apply (clean_removes_every_output ∅ styles (p_styles paths) ["site.css"]
           {[ ["build"; "static"; "styles"; "site.css"] := "body{}" ]} fs');
    [reflexivity | exact H].
Defined.

(** X5. Cleaning twice is cleaning once, and cleaning a tree that has
    nothing under [build] changes nothing. *)
Theorem clean_idempotent (c : config) (fs fs' : filesystem) :
  run_clean c fs = Some fs' ->
  run_clean c fs' = Some fs'
  /\ ((forall p, head p = Some "build" -> fs !! p = None) -> fs' = fs).
Proof.
  intros Hrun. split.
  - destruct (run_clean c fs') as [fs''|] eqn:Hrun'.
    + f_equal. apply map_eq. intros p.
      rewrite (run_clean_lookup _ _ _ p Hrun'), (run_clean_lookup _ _ _ p Hrun).
      now destruct (del_removes [output_glob] p).
    + unfold run_clean, del in Hrun'. cbn [body] in Hrun'.
      rewrite output_glob_parse in Hrun'. discriminate.
  - intros Hnone. apply map_eq. intros p.
    rewrite (run_clean_lookup _ _ _ p Hrun).
    destruct (del_removes [output_glob] p) eqn:Hr; [|reflexivity].
    apply del_removes_output in Hr. symmetry. now apply Hnone.
Qed.

Lemma clean_idempotent_witness :
  exists fs',
    run_clean (load ∅) {[ ["src"; "views"; "index.html"] := "<html>" ]} = Some fs'
    /\ run_clean (load ∅) fs' = Some fs'.
Proof.
  assert (H : exists fs',
             run_clean (load ∅)
               {[ ["src"; "views"; "index.html"] := "<html>" ]} = Some fs').
  { unfold run_clean, del. cbn [body]. rewrite output_glob_parse.
    eexists. reflexivity. }
  destruct H as [fs' H]. exists fs'. split; [exact H|].
  apply (clean_idempotent (load ∅) {[ ["src"; "views"; "index.html"] := "<html>" ]}).
  exact H.
Defined.

(** ** The sequence of a [gulp.start] *)

Lemma sequencify_cons (fuel : nat) (n : task) (names res : list task) :
  sequencify (S fuel) (n :: names) res
  = sequencify (S fuel) names
      (if mem n res then res else sequencify fuel (deps n) res ++ [n]).
Proof. reflexivity. Qed.

Lemma sequencify_nil (fuel : nat) (res : list task) : sequencify fuel [] res = res.
Proof. destruct fuel; reflexivity. Qed.

(** The registry has one level of prerequisites. *)
Lemma deps_shape (n : task) :
  deps n = [] \/ exists d, deps n = [d] /\ deps d = [].
Proof.
  destruct n; simpl; auto; right; eexists; split; reflexivity.
Qed.

Lemma seq_step_spec (fuel : nat) (res : list task) (n : task) :
  (forall t d, In t res -> In d (deps t) -> In d res) ->
  let r := if mem n res then res else sequencify (S fuel) (deps n) res ++ [n] in
  (forall t d, In t r -> In d (deps t) -> In d r)
  /\ (forall t, In t r <-> In t res \/ t = n \/ In t (deps n)).
Proof.
  intros Hc. destruct (mem n res) eqn:Hm; cbn zeta.
  - apply mem_In in Hm. split; [exact Hc|]. intros t. split; [tauto|].
    intros [H|[->|H]]; eauto.
  - destruct (deps_shape n) as [Hn|(d & Hn & Hd)]; rewrite Hn.
    + rewrite sequencify_nil. split.
      * intros t d Ht Hdt. apply in_app_iff in Ht as [Ht|[<-|[]]].
        -- apply in_app_iff. left. eauto.
        -- rewrite Hn in Hdt. contradiction.
      * intros t. rewrite in_app_iff. simpl. intuition.
    + rewrite sequencify_cons, sequencify_nil, Hd, sequencify_nil.
      destruct (mem d res) eqn:Hmd.
      * apply mem_In in Hmd. split.
        -- intros t x Ht Hx. apply in_app_iff in Ht as [Ht|[<-|[]]].
           ++ apply in_app_iff. left. eauto.
           ++ rewrite Hn in Hx. destruct Hx as [<-|[]]. apply in_app_iff. now left.
        -- intros t. rewrite in_app_iff. simpl.
           split; [intros [H|[<-|[]]]; auto|]. intros [H|[->|[<-|[]]]]; auto.
      * split.
        -- intros t x Ht Hx. rewrite !in_app_iff in *. simpl in *.
           destruct Ht as [[Ht|[<-|[]]]|[<-|[]]].
           ++ left. left. eauto.
           ++ rewrite Hd in Hx. contradiction.
           ++ rewrite Hn in Hx. destruct Hx as [<-|[]]. left. right. now left.
        -- intros t. rewrite !in_app_iff. simpl. intuition (subst; auto).
Qed.

(** The sequence of [gulp.start(names)] holds the names and their
    prerequisites, nothing else, and with a task all its prerequisites. *)
Lemma sequencify_spec (fuel : nat) (names res : list task) :
  (forall t d, In t res -> In d (deps t) -> In d res) ->
  (forall t d, In t (sequencify (S (S fuel)) names res) -> In d (deps t) ->
               In d (sequencify (S (S fuel)) names res))
  /\ (forall t, In t (sequencify (S (S fuel)) names res)
                <-> In t res \/ In t names \/ exists n, In n names /\ In t (deps n)).
Proof.
  revert res. induction names as [|n names IH]; intros res Hc.
  - rewrite sequencify_nil. split; [exact Hc|]. intros t. split; [tauto|].
    intros [H|[[]|(n & [] & _)]]. exact H.
  - rewrite sequencify_cons.
    destruct (seq_step_spec fuel res n Hc) as [Hc' Hin]. cbn zeta in Hc', Hin.
    destruct (IH _ Hc') as [Hc'' Hin'']. split; [exact Hc''|].
    intros t. rewrite Hin'', Hin. simpl. split.
    + intros [[H|[->|H]]|[H|(m & Hm & H)]]; eauto 6.
    + intros [H|[[<-|H]|(m & [<-|Hm] & H)]]; eauto 6.
Qed.

Lemma gulp_start_seq (names : list task) :
  (forall t d, In t (o_seq (gulp_start names)) -> In d (deps t) ->
               In d (o_seq (gulp_start names)))
  /\ (forall t, In t (o_seq (gulp_start names))
                <-> In t names \/ exists n, In n names /\ In t (deps n)).
Proof.
  destruct (sequencify_spec 9 names []) as [Hc Hin]; [intros ? ? []|].
  split; [exact Hc|]. intros t.
  change (o_seq (gulp_start names)) with (sequencify 11 names []).
  rewrite Hin. simpl. tauto.
Qed.

Lemma log_performed (c : config) (tr : list event) (t : task) (a : action) :
  In (Performed t a) (log_of c tr) <-> In (Invoke t) tr /\ In a (body c t).
Proof.
  unfold log_of. rewrite in_flat_map. split.
  - intros ([u|u] & Hu & Hin); simpl in Hin.
    + destruct Hin as [Hin|Hin]; [discriminate|].
      apply in_map_iff in Hin as (b & [= -> ->] & Hb). auto.
    + destruct Hin as [Hin|[]]. discriminate.
  - intros [Ht Ha]. exists (Invoke t). split; [exact Ht|].
    simpl. right. now apply in_map.
Qed.

(** X10. A run of [gulp.start(names)], for names other than the
    default task, calls only the named tasks and the prerequisites they
    declare.  No task names [clean] or [serve] as a prerequisite, so in
    such a run the output directory is deleted and the server is started
    only when that task itself was asked for.  (The default task is the
    one that starts other tasks by itself.) *)
Theorem only_requested_tasks_run (c : config) (names : list task)
        (tr : list event) (o : orch) :
  direct_start names ->
  orch_run (gulp_start names) tr = Some o ->
  (forall t, In (Invoke t) tr ->
             In t names \/ exists n, In n names /\ In t (deps n))
  /\ (forall t ps, In (Performed t (Del ps)) (log_of c tr) -> In clean names)
  /\ (forall t cfg, In (Performed t (BrowserSyncInit cfg)) (log_of c tr) ->
                    In serve names).
Proof.
  intros _ Hrun.
  assert (Hreq : forall t, In (Invoke t) tr ->
                           In t names \/ exists n, In n names /\ In t (deps n)).
  { intros t Ht. apply gulp_start_seq.
    apply (orch_run_in_seq _ _ _ Hrun); [intros ? []|]. now left. }
  split; [exact Hreq|]. split.
  - intros t ps Hp. apply log_performed in Hp as [Ht Ha].
    assert (t = clean) as ->
      by (destruct t; simpl in Ha; intuition discriminate).
    destruct (Hreq _ Ht) as [H|(n & _ & H)]; [exact H|].
    destruct n; simpl in H; intuition discriminate.
  - intros t cfg Hp. apply log_performed in Hp as [Ht Ha].
    assert (t = serve) as ->
      by (destruct t; simpl in Ha; intuition discriminate).
    destruct (Hreq _ Ht) as [H|(n & _ & H)]; [exact H|].
    destruct n; simpl in H; intuition discriminate.
Qed.

Lemma only_requested_tasks_run_witness :
  In scripts [scripts_watch]
  \/ exists n, In n [scripts_watch] /\ In scripts (deps n).
Proof.
  refine (proj1 (only_requested_tasks_run (load ∅) [scripts_watch]
                   [Invoke scripts; Complete scripts; Invoke scripts_watch] _ _ _)
            scripts _).
  - split; [discriminate | simpl; intuition discriminate].
  - vm_compute. reflexivity.
  - simpl. tauto.
Defined.

Lemma accepted_invokes (names : list task) (tr : list event) (t : task) :
  orch_accepts names tr = true ->
  In t (o_seq (gulp_start names)) ->
  In (Invoke t) tr /\ In (Complete t) tr.
Proof.
  unfold orch_accepts.
  destruct (orch_run (gulp_start names) tr) as [o|] eqn:Hrun; [|discriminate].
  intros Hs Ht.
  destruct (orch_run_records _ _ _ Hrun) as (Hseq & _ & Hd).
  unfold stopped in Hs. rewrite forallb_forall in Hs.
  rewrite <- Hseq in Ht. apply Hs, mem_In, Hd in Ht as [[]|Ht].
  split; [|exact Ht].
  apply in_split in Ht as (l1 & l2 & ->).
  pose proof (orch_run_order _ _ _ _ _ Hrun) as Hi. simpl in Hi.
  apply in_or_app. now left.
Qed.

(** X6. Every complete run of one [gulp.start(['views:watch'])] is the
    same: views is called and stops, then [views:watch] is called, calls
    [browserSync.reload] once and [done], and stops.  Likewise for
    [scripts:watch] with scripts.  How many such runs one change of a
    file starts is up to the watcher and is not stated here. *)
Theorem watch_rebuild_run (c : config) (w b : task) (tr : list event) :
  (w = views_watch /\ b = views) \/ (w = scripts_watch /\ b = scripts) ->
  orch_accepts [w] tr = true ->
  tr = [Invoke b; Complete b; Invoke w; Complete w]
  /\ log_of c tr
     = [ Called b; Performed b (ReturnStream (pipeline c b)); Stopped b;
         Called w; Performed w BrowserSyncReload; Performed w Done; Stopped w ].
Proof.
  intros Hw Hacc. unfold orch_accepts in Hacc.
  assert (tr = [Invoke b; Complete b; Invoke w; Complete w]) as ->.
  { destruct Hw as [[-> ->]|[-> ->]];
      destruct (orch_run _ tr) as [o|] eqn:Hrun; try discriminate Hacc.
    all: do 4 (next_event Hrun tr;
               [injection Hrun as <-; vm_compute in Hacc; discriminate Hacc|]).
    all: next_event Hrun tr; reflexivity. }
  split; [reflexivity|].
  destruct Hw as [[-> ->]|[-> ->]]; reflexivity.
Qed.

Lemma watch_rebuild_run_witness :
  [Invoke views; Complete views; Invoke views_watch; Complete views_watch]
  = [Invoke views; Complete views; Invoke views_watch; Complete views_watch]
  /\ log_of (load ∅)
       [Invoke views; Complete views; Invoke views_watch; Complete views_watch]
     = [ Called views; Performed views (ReturnStream (pipeline (load ∅) views));
         Stopped views; Called views_watch;
         Performed views_watch BrowserSyncReload; Performed views_watch Done;
         Stopped views_watch ].
Proof.
  apply (watch_rebuild_run (load ∅) views_watch views).
  - left. split; reflexivity.
  - vm_compute. reflexivity.
Defined.

(** X7. In development every watcher leads to a browser update: the
    run it starts rebuilds the asset task whose glob it watches, and that
    run either calls [browserSync.reload] or returns a stream that ends
    in [browserSync.stream]. *)
Theorem every_watcher_updates_browser (c : config) (g : option globs)
        (ts : list task) (tr : list event) :
  c_isProd c = false ->
  In (GulpWatch g ts) (body c watch) ->
  orch_accepts ts tr = true ->
  (exists t pe,
      In t asset_tasks /\ paths_of t = Some pe
      /\ (g = Some (src pe) \/ g = glob_at (src pe) 0)
      /\ In (Performed t (ReturnStream (pipeline c t))) (log_of c tr))
  /\ ((exists t, In (Performed t BrowserSyncReload) (log_of c tr))
      \/ (exists t st, In (Performed t (ReturnStream st)) (log_of c tr)
                       /\ In BrowserSyncStream st)).
Proof.
  intros Hdev Hg Hacc.
  assert (Hinv : forall t, In t (o_seq (gulp_start ts)) -> In (Invoke t) tr)
    by (intros t Ht; now apply (accepted_invokes ts tr t Hacc)).
  simpl in Hg. destruct Hg as [Hg|[Hg|[Hg|[Hg|[]]]]];
    injection Hg as <- <-.
  - split.
    + exists views, (p_views paths). repeat split; simpl; auto.
      apply log_performed. split; [apply Hinv; vm_compute; tauto | now left].
    + left. exists views_watch. apply log_performed.
      split; [apply Hinv; vm_compute; tauto | now left].
  - split.
    + exists media, (p_media paths). repeat split; simpl; auto.
      apply log_performed. split; [apply Hinv; vm_compute; tauto | now left].
    + right. exists media, (pipeline c media). split.
      * apply log_performed. split; [apply Hinv; vm_compute; tauto | now left].
      * unfold pipeline. rewrite Hdev. simpl. tauto.
  - split.
    + exists styles, (p_styles paths). repeat split; simpl; auto.
      apply log_performed. split; [apply Hinv; vm_compute; tauto | now left].
    + right. exists styles, (pipeline c styles). split.
      * apply log_performed. split; [apply Hinv; vm_compute; tauto | now left].
      * unfold pipeline. rewrite Hdev. simpl. tauto.
  - split.
    + exists scripts, (p_scripts paths). repeat split; simpl; auto.
      apply log_performed. split; [apply Hinv; vm_compute; tauto | now left].
    + left. exists scripts_watch. apply log_performed.
      split; [apply Hinv; vm_compute; tauto | now left].
Qed.

Lemma every_watcher_updates_browser_witness :
  (exists t, In (Performed t BrowserSyncReload)
               (log_of (load ∅) [Invoke media; Complete media]))
  \/ (exists t st,
         In (Performed t (ReturnStream st))
           (log_of (load ∅) [Invoke media; Complete media])
         /\ In BrowserSyncStream st).
Proof.
  apply (every_watcher_updates_browser (load ∅) (Some (src (p_media paths)))
           [media] [Invoke media; Complete media]).
  - reflexivity.
  - simpl. tauto.
  - vm_compute. reflexivity.
Defined.

(** ** Progress of the orchestrator *)

Lemma orch_run_done_started (names : list task) (tr : list event) (o : orch) :
  orch_run (gulp_start names) tr = Some o ->
  (forall t, In t (o_done o) -> In t (o_started o))
  /\ (forall t, In t (o_started o) -> In t (o_seq o))
  /\ o_seq o = o_seq (gulp_start names).
Proof.
  intros Hrun.
  destruct (orch_run_records _ _ _ Hrun) as (Hseq & Hst & Hd).
  split; [|split; [|exact Hseq]].
  - intros t Ht. apply Hd in Ht as [[]|Ht].
    apply in_split in Ht as (l1 & l2 & ->).
    pose proof (orch_run_order _ _ _ _ _ Hrun) as Hi. simpl in Hi.
    apply Hst. right. apply in_or_app. now left.
  - intros t Ht. apply Hst in Ht as [[]|Ht]. rewrite Hseq.
    apply (orch_run_in_seq _ _ _ Hrun); [intros ? []|]. now left.
Qed.

Lemma all_events_complete (e : event) : In e all_events.
Proof. destruct e as [[]|[]]; vm_compute; tauto. Qed.

Lemma forallb_false_witness {A : Type} (f : A -> bool) (l : list A) :
  forallb f l = false -> exists x, In x l /\ f x = false.
Proof.
  induction l as [|x l IH]; simpl; [discriminate|].
  intros H. apply andb_false_iff in H as [H|H].
  - exists x. auto.
  - destruct (IH H) as (y & Hy & Hf). exists y. auto.
Qed.

(** X11. Whatever tasks other than the default task are asked for, a
    run of [gulp.start] never gets stuck: while a task of the sequence
    has not completed, some task can be called or can complete.  And no
    such run is longer than twenty events, two for each registered task,
    so every run can be carried on to the end. *)
Theorem orchestrator_never_stuck (names : list task) (tr : list event) (o : orch) :
  direct_start names ->
  orch_run (gulp_start names) tr = Some o ->
  length tr <= 2 * length all_tasks
  /\ (stopped o (o_seq o) = false ->
      exists e o', orch_fire o e = Some o').
Proof.
  intros _ Hrun. split.
  - change (2 * length all_tasks) with (length all_events).
    apply NoDup_incl_length.
    + destruct (orch_run_NoDup _ _ _ Hrun) as (_ & _ & Hn).
      now apply NoDup_ListNoDup.
    + intros e _. apply all_events_complete.
  - intros Hs.
    destruct (orch_run_done_started _ _ _ Hrun) as (Hds & Hss & Hseq).
    destruct (gulp_start_seq names) as [Hclosed _]. rewrite <- Hseq in Hclosed.
    assert (Hcomplete : forall t, mem t (o_started o) = true ->
                                  mem t (o_done o) = false ->
                                  exists e o', orch_fire o e = Some o').
    { intros t H1 H2. exists (Complete t). simpl. rewrite H1, H2. simpl. eauto. }
    assert (Hinvoke : forall t, In t (o_seq o) ->
                                mem t (o_started o) = false ->
                                forallb (fun d => mem d (o_done o)) (deps t) = true ->
                                exists e o', orch_fire o e = Some o').
    { intros t H1 H2 H3. exists (Invoke t). simpl.
      apply mem_In in H1. rewrite H1, H2, H3. simpl. eauto. }
    apply forallb_false_witness in Hs as (t & Ht & Hnd).
    destruct (mem t (o_started o)) eqn:Hst; [now apply (Hcomplete t)|].
    destruct (forallb (fun d => mem d (o_done o)) (deps t)) eqn:Hdeps;
      [now apply (Hinvoke t)|].
    apply forallb_false_witness in Hdeps as (d & Hd & Hdn).
    assert (Hdseq : In d (o_seq o)) by (eapply Hclosed; eauto).
    assert (Hdd : deps d = []).
    { destruct (deps_shape t) as [E|(d' & E & E')]; rewrite E in Hd.
      - contradiction.
      - destruct Hd as [<-|[]]. exact E'. }
    destruct (mem d (o_started o)) eqn:Hdst; [now apply (Hcomplete d)|].
    apply (Hinvoke d); auto. now rewrite Hdd.
Qed.

Lemma orchestrator_never_stuck_witness :
  length [Invoke views] <= 2 * length all_tasks
  /\ exists e o',
       orch_fire {| o_seq := [views; views_watch];
                    o_started := [views]; o_done := [] |} e = Some o'.
Proof.
  destruct (orchestrator_never_stuck [views_watch] [Invoke views]
              {| o_seq := [views; views_watch]; o_started := [views]; o_done := [] |})
    as [Hlen Hlive].
  - split; [discriminate | simpl; intuition discriminate].
  - vm_compute. reflexivity.
  - split; [exact Hlen|]. apply Hlive. vm_compute. reflexivity.
Defined.

(** ** What a run of the default task does *)

Lemma default_run_shape (c : config) (tr : list event) :
  rs_accepts (default_sequence c) tr = true ->
  exists tc,
    tr = [Invoke clean; Complete clean] ++ tc
         ++ (if c_isProd c then []
             else [Invoke serve; Complete serve; Invoke watch; Complete watch])
    /\ (forall e, In e tc ->
                  exists t, In t compile /\ (e = Invoke t \/ e = Complete t))
    /\ (forall t, In t compile -> In (Invoke t) tc).
Proof.
  intros Hacc.
  apply rs_accepts_steps in Hacc; [|apply default_steps_nonempty].
  unfold default_sequence in Hacc.
  assert (Hshape : forall tc o,
             orch_run (gulp_start compile) tc = Some o ->
             stopped o compile = true ->
             (forall e, In e tc ->
                        exists t, In t compile /\ (e = Invoke t \/ e = Complete t))
             /\ (forall t, In t compile -> In (Invoke t) tc)).
  { intros tc o Hr Hs.
    destruct (step_run_shape _ _ _ Hr Hs) as (_ & Hin & Hp).
    split; [exact Hin|]. intros t Ht. now apply Hp, precedes_In in Ht. }
  destruct (c_isProd c); simpl in Hacc.
  - destruct Hacc as (t1 & r1 & o1 & -> & Hr1 & Hs1 & t2 & r2 & o2 & -> & Hr2 & Hs2 & ->).
    apply single_step_run in Hr1; auto. subst t1.
    exists t2. rewrite app_nil_r. split; [reflexivity|]. eapply Hshape; eauto.
  - destruct Hacc as (t1 & r1 & o1 & -> & Hr1 & Hs1 & t2 & r2 & o2 & -> & Hr2 & Hs2
                      & t3 & r3 & o3 & -> & Hr3 & Hs3 & t4 & r4 & o4 & -> & Hr4 & Hs4 & ->).
    apply single_step_run in Hr1; auto.
    apply single_step_run in Hr3; auto.
    apply single_step_run in Hr4; auto. subst t1 t3 t4.
    exists t2. split; [reflexivity|]. eapply Hshape; eauto.
Qed.

Lemma log_of_app (c : config) (tr1 tr2 : list event) :
  log_of c (tr1 ++ tr2) = log_of c tr1 ++ log_of c tr2.
Proof. apply flat_map_app. Qed.

(** X8. A production run of the default task performs only the delete
    of the clean task and the four build streams, and none of these
    streams holds a changed-files filter or a [browserSync.stream] stage:
    no server is started, no watcher is registered, the browser is never
    reloaded, and every source file is processed whether or not it
    changed. *)
Theorem production_run_is_plain_build (c : config) (tr : list event)
        (t : task) (a : action) :
  c_isProd c = true ->
  rs_accepts (default_sequence c) tr = true ->
  In (Performed t a) (log_of c tr) ->
  (t = clean /\ a = Del ["build"])
  \/ (In t [views; media; styles; scripts]
      /\ a = ReturnStream (pipeline c t)
      /\ ~ In BrowserSyncStream (pipeline c t)
      /\ (forall d, ~ In (Changed d) (pipeline c t))).
Proof.
  intros Hprod Hacc Hp.
  destruct (default_run_shape _ _ Hacc) as (tc & -> & Hin & _).
  rewrite Hprod, app_nil_r in Hp.
  apply log_performed in Hp as [Ht Ha].
  apply in_app_iff in Ht as [Ht|Ht].
  - destruct Ht as [[= <-]|[Ht|[]]]; [|discriminate].
    left. destruct Ha as [<-|[]]. auto.
  - right. destruct (Hin _ Ht) as (u & Hu & [[= <-]|He]); [|discriminate].
    split; [exact Hu|].
    assert (Hbody : body c t = [ReturnStream (pipeline c t)])
      by (simpl in Hu; intuition (subst; reflexivity)).
    rewrite Hbody in Ha. destruct Ha as [<-|[]]. split; [reflexivity|].
    unfold pipeline. rewrite Hprod.
    simpl in Hu. destruct Hu as [<-|[<-|[<-|[<-|[]]]]]; simpl;
      split; try intros d; intuition discriminate.
Qed.

Lemma production_run_is_plain_build_witness :
  (media = clean /\ ReturnStream (pipeline (load {["NODE_ENV" := "production"]}) media)
                    = Del ["build"])
  \/ (In media [views; media; styles; scripts]
      /\ ReturnStream (pipeline (load {["NODE_ENV" := "production"]}) media)
         = ReturnStream (pipeline (load {["NODE_ENV" := "production"]}) media)
      /\ ~ In BrowserSyncStream (pipeline (load {["NODE_ENV" := "production"]}) media)
      /\ (forall d, ~ In (Changed d)
                      (pipeline (load {["NODE_ENV" := "production"]}) media))).
Proof.
  apply (production_run_is_plain_build (load {["NODE_ENV" := "production"]})
           [Invoke clean; Complete clean;
            Invoke views; Invoke media; Invoke styles; Invoke scripts;
            Complete views; Complete media; Complete styles; Complete scripts]).
  - reflexivity.
  - vm_compute. reflexivity.
  - vm_compute. tauto.
Defined.

(** X9. In a development run of the default task the output directory
    is deleted first; then come the four builds and nothing else; only
    then is [browserSync.init] called, and the four watchers are
    registered after it.  So the [browserSync.stream] stages of the first
    media and styles builds are set up before the server is initialised. *)
Theorem development_run_order (c : config) (tr : list event) :
  c_isProd c = false ->
  rs_accepts (default_sequence c) tr = true ->
  exists tc,
    log_of c tr
    = [Called clean; Performed clean (Del ["build"]); Stopped clean]
      ++ log_of c tc
      ++ [Called serve; Performed serve (BrowserSyncInit (c_browserSync c));
          Stopped serve; Called watch]
      ++ map (Performed watch) (body c watch)
      ++ [Stopped watch]
    /\ (forall t a, In (Performed t a) (log_of c tc) ->
                    In t [views; media; styles; scripts]
                    /\ a = ReturnStream (pipeline c t))
    /\ (forall t, In t [views; media; styles; scripts] ->
                  In (Performed t (ReturnStream (pipeline c t))) (log_of c tc))
    /\ In BrowserSyncStream (pipeline c media)
    /\ In BrowserSyncStream (pipeline c styles).
Proof.
  intros Hdev Hacc.
  destruct (default_run_shape _ _ Hacc) as (tc & -> & Hin & Hall).
  rewrite Hdev. exists tc. split; [|split; [|split; [|split]]].
  - rewrite !log_of_app. reflexivity.
  - intros t a Hp. apply log_performed in Hp as [Ht Ha].
    destruct (Hin _ Ht) as (u & Hu & [[= <-]|He]); [|discriminate].
    split; [exact Hu|].
    assert (Hbody : body c t = [ReturnStream (pipeline c t)])
      by (simpl in Hu; intuition (subst; reflexivity)).
    rewrite Hbody in Ha. destruct Ha as [<-|[]]. reflexivity.
  - intros t Ht. apply log_performed. split; [now apply Hall|].
    simpl in Ht. destruct Ht as [<-|[<-|[<-|[<-|[]]]]]; now left.
  - unfold pipeline. rewrite Hdev. simpl. tauto.
  - unfold pipeline. rewrite Hdev. simpl. tauto.
Qed.

Lemma development_run_order_witness :
  exists tc,
    log_of (load ∅) dev_trace
    = [Called clean; Performed clean (Del ["build"]); Stopped clean]
      ++ log_of (load ∅) tc
      ++ [Called serve; Performed serve (BrowserSyncInit (c_browserSync (load ∅)));
          Stopped serve; Called watch]
      ++ map (Performed watch) (body (load ∅) watch)
      ++ [Stopped watch]
    /\ (forall t a, In (Performed t a) (log_of (load ∅) tc) ->
                    In t [views; media; styles; scripts]
                    /\ a = ReturnStream (pipeline (load ∅) t))
    /\ (forall t, In t [views; media; styles; scripts] ->
                  In (Performed t (ReturnStream (pipeline (load ∅) t)))
                    (log_of (load ∅) tc))
    /\ In BrowserSyncStream (pipeline (load ∅) media)
    /\ In BrowserSyncStream (pipeline (load ∅) styles).
Proof.
  apply (development_run_order (load ∅) dev_trace).
  - reflexivity.
  - vm_compute. reflexivity.
Defined.

(** ** The order of the stages *)

(** X12. Every asset task pipes in this order: the source, plumber,
    the plugins, one [gulp.dest], and after the write nothing but a no-op
    or [browserSync.stream].  So every plugin runs with the error handler
    in place, each file is written once, nothing changes a file after it
    was written, and a [changed] filter compares with the directory the
    task itself writes to. *)
Theorem pipeline_shape (c : config) (t : task) :
  In t asset_tasks ->
  exists pe mid post,
    paths_of t = Some pe
    /\ pipeline c t
       = Src (src pe) :: Plumber errorHandler :: mid ++ Dest (dest pe) :: post
    /\ Forall (fun s => is_dest s = false /\ is_plumber s = false
                        /\ forall g, s <> Src g) mid
    /\ Forall (fun s => passive s = true) post
    /\ (forall d, In (Changed d) mid -> d = dest pe).
Proof.
  intros Ht. unfold pipeline.
  each_asset_task Ht; eexists.
  - exists [eval_slot (c_isProd c) (IfProd Noop (Changed (dest (p_views paths))))], [].
    destruct (c_isProd c); simpl;
      repeat split; repeat constructor; try discriminate;
      intros d [H|[]]; try discriminate H; now injection H as <-.
  - exists [eval_slot (c_isProd c) (IfProd Noop (Changed (dest (p_media paths))));
            eval_slot (c_isProd c) (IfProd Imagemin Noop)],
           [eval_slot (c_isProd c) (IfProd Noop BrowserSyncStream)].
    destruct (c_isProd c); simpl;
      repeat split; repeat constructor; try discriminate;
      intros d [H|[H|[]]]; try discriminate H; now injection H as <-.
  - exists [eval_slot (c_isProd c) (IfProd Noop (Changed (dest (p_styles paths))));
            SourcemapsInit; Sass; Autoprefixer;
            eval_slot (c_isProd c) (IfProd CleanCSS Noop);
            SourcemapsWrite "."],
           [eval_slot (c_isProd c) (IfProd Noop BrowserSyncStream)].
    destruct (c_isProd c); simpl;
      repeat split; repeat constructor; try discriminate;
      intros d [H|[H|[H|[H|[H|[H|[]]]]]]]; try discriminate H; now injection H as <-.
  - exists [Named; Webpack (c_webpack c)], [].
    simpl. repeat split; repeat constructor; try discriminate.
    intros d [H|[H|[]]]; discriminate H.
Qed.

Lemma pipeline_shape_witness :
  exists pe mid post,
    paths_of media = Some pe
    /\ pipeline (load ∅) media
       = Src (src pe) :: Plumber errorHandler :: mid ++ Dest (dest pe) :: post
    /\ Forall (fun s => is_dest s = false /\ is_plumber s = false
                        /\ forall g, s <> Src g) mid
    /\ Forall (fun s => passive s = true) post
    /\ (forall d, In (Changed d) mid -> d = dest pe).
Proof.
  apply (pipeline_shape (load ∅) media). simpl. tauto.
Defined.

(** X13. In the styles task the stages that rewrite the stylesheet
    (sass, then autoprefixer, then in production cleanCSS) all lie
    between [sourcemaps.init] and [sourcemaps.write], no stage outside
    that bracket rewrites it, and the file is written after
    [sourcemaps.write]: the source map covers every transformation. *)
Theorem styles_sourcemaps_bracket (c : config) :
  exists pre mid post,
    pipeline c styles = pre ++ SourcemapsInit :: mid ++ SourcemapsWrite "." :: post
    /\ Forall (fun s => transforms s = false) pre
    /\ Forall (fun s => transforms s = false) post
    /\ List.filter transforms mid
       = [Sass; Autoprefixer] ++ (if c_isProd c then [CleanCSS] else [])
    /\ In (Dest (dest (p_styles paths))) post.
Proof.
  unfold pipeline.
  exists [Src (src (p_styles paths)); Plumber errorHandler;
          eval_slot (c_isProd c) (IfProd Noop (Changed (dest (p_styles paths))))],
         [Sass; Autoprefixer; eval_slot (c_isProd c) (IfProd CleanCSS Noop)],
         [Dest (dest (p_styles paths));
          eval_slot (c_isProd c) (IfProd Noop BrowserSyncStream)].
  destruct (c_isProd c); simpl; repeat split; repeat constructor.
Qed.

(** ** Where the tasks write *)

Lemma written_under_static (pe : path_entry) (t : task) (rel : path) :
  (t = media \/ t = styles \/ t = scripts) ->
  paths_of t = Some pe ->
  written_under (dest pe) rel = ["build"; "static"; task_name t] ++ rel.
Proof.
  intros [-> | [-> | ->]] [= <-]; reflexivity.
Qed.

(** X14. The media, styles and scripts tasks write into three
    different directories, so two of them never write the same file.  All
    three directories lie inside the one the views task writes to: a file
    of [src/views] whose relative path starts with [static/<task>] lands
    where that task writes. *)
Theorem destinations_disjoint_within_views (t1 t2 : task) (pe1 pe2 : path_entry)
        (rel1 rel2 : path) :
  (t1 = media \/ t1 = styles \/ t1 = scripts) ->
  (t2 = media \/ t2 = styles \/ t2 = scripts) ->
  paths_of t1 = Some pe1 ->
  paths_of t2 = Some pe2 ->
  (written_under (dest pe1) rel1 = written_under (dest pe2) rel2 ->
   t1 = t2 /\ rel1 = rel2)
  /\ written_under (dest (p_views paths)) (["static"; task_name t1] ++ rel1)
     = written_under (dest pe1) rel1.
Proof.
  intros H1 H2 Hp1 Hp2.
  rewrite (written_under_static pe1 t1 rel1 H1 Hp1).
  rewrite (written_under_static pe2 t2 rel2 H2 Hp2).
  split; [|reflexivity].
  intros [= Hn Hr]. split; [|exact Hr].
  destruct H1 as [-> | [-> | ->]], H2 as [-> | [-> | ->]];
    try reflexivity; discriminate Hn.
Qed.

Lemma destinations_disjoint_within_views_witness :
  (written_under (dest (p_media paths)) ["logo.svg"]
   = written_under (dest (p_scripts paths)) ["logo.svg"] ->
   media = scripts /\ ["logo.svg"] = ["logo.svg"])
  /\ written_under (dest (p_views paths)) (["static"; task_name media] ++ ["logo.svg"])
     = written_under (dest (p_media paths)) ["logo.svg"].
Proof.
  apply (destinations_disjoint_within_views media scripts); auto.
Defined.

(** ** Paths built from other directory names *)

Lemma app_nonempty_r (a b : string) : b <> "" -> a +:+ b <> "".
Proof. destruct a; [now intros | discriminate]. Qed.

Lemma leading_slash_app (a b : string) :
  a <> "" -> leading_slash (a +:+ b) = leading_slash a.
Proof. destruct a; [congruence | reflexivity]. Qed.

Lemma trailing_slash_cons (ch : ascii) (s : string) :
  s <> "" -> trailing_slash (String ch s) = trailing_slash s.
Proof. destruct s; [congruence | reflexivity]. Qed.

Lemma trailing_slash_app (a b : string) :
  b <> "" -> trailing_slash (a +:+ b) = trailing_slash b.
Proof.
  intros Hb. induction a as [|ch a IH]; [reflexivity|].
  change (trailing_slash (String ch (a +:+ b)) = trailing_slash b).
  rewrite trailing_slash_cons; [exact IH | now apply app_nonempty_r].
Qed.

Lemma paths_from_dirs : paths_from dirs = paths /\ configured_paths_from dirs = configured_paths.
Proof. split; reflexivity. Qed.

(** X15. Whatever two directory names the configuration is given: if
    both are non-empty and free of a leading and of a trailing slash, so
    is every configured path.  The strings of [paths] alone obey that rule
    exactly when the output directory does and the entry directory is
    non-empty and has no leading slash: a trailing slash on the entry
    directory does not show at either end of a path, it ends up inside
    the globs. *)
Theorem paths_keep_slash_rule (d : dirs_t) :
  let ok s := s <> "" /\ leading_slash s = false /\ trailing_slash s = false in
  (ok (entry d) -> ok (output d) ->
   forall s, In s (configured_paths_from d) -> ok s)
  /\ ((forall s, In s (built_paths_from d) -> ok s)
      <-> entry d <> "" /\ leading_slash (entry d) = false /\ ok (output d)).
Proof.
  cbn zeta.
  assert (Hbuilt : entry d <> "" -> leading_slash (entry d) = false ->
                   output d <> "" /\ leading_slash (output d) = false
                   /\ trailing_slash (output d) = false ->
                   forall s, In s (built_paths_from d) ->
                             s <> "" /\ leading_slash s = false
                             /\ trailing_slash s = false).
  { intros He Hel (Ho & Hol & Hot) s Hs.
    assert (Hin : forall tail, tail <> "" -> trailing_slash tail = false ->
                    entry d +:+ tail <> ""
                    /\ leading_slash (entry d +:+ tail) = false
                    /\ trailing_slash (entry d +:+ tail) = false).
    { intros tail Ht Htt. split; [now apply app_nonempty_r|].
      now rewrite leading_slash_app, trailing_slash_app. }
    assert (Hout : forall tail, tail <> "" -> trailing_slash tail = false ->
                     output d +:+ tail <> ""
                     /\ leading_slash (output d +:+ tail) = false
                     /\ trailing_slash (output d +:+ tail) = false).
    { intros tail Ht Htt. split; [now apply app_nonempty_r|].
      now rewrite leading_slash_app, trailing_slash_app. }
    simpl in Hs.
    repeat (destruct Hs as [<-|Hs]);
      try contradiction;
      try (apply Hin; [discriminate | reflexivity]);
      try (apply Hout; [discriminate | reflexivity]);
      try (repeat split; assumption).
    split; [discriminate|]. split; [reflexivity|].
    change (trailing_slash ("!" +:+ (entry d +:+ "/scripts/**/*.module.js")) = false).
    rewrite trailing_slash_app; [|now apply app_nonempty_r].
    now rewrite trailing_slash_app. }
  split; [|split].
  - intros (He & Hel & Het) Hout s [<-|[<-|Hs]];
      [repeat split; assumption | exact Hout | now apply Hbuilt].
  - intros H.
    assert (Hv : entry d +:+ "/views/**/*" <> ""
                 /\ leading_slash (entry d +:+ "/views/**/*") = false
                 /\ trailing_slash (entry d +:+ "/views/**/*") = false)
      by (apply H; simpl; auto).
    assert (He : entry d <> "").
    { intros E. rewrite E in Hv. destruct Hv as (_ & Hl & _). discriminate Hl. }
    split; [exact He|]. split.
    + destruct Hv as (_ & Hl & _). now rewrite leading_slash_app in Hl.
    + apply H. simpl. auto.
  - intros (He & Hel & Hout). now apply Hbuilt.
Qed.

Lemma paths_keep_slash_rule_witness :
  "dist/www/static/media" <> ""
  /\ leading_slash "dist/www/static/media" = false
  /\ trailing_slash "dist/www/static/media" = false.
Proof.
  apply (proj1 (paths_keep_slash_rule {| entry := "app"; output := "dist/www" |})).
  - repeat split; discriminate.
  - repeat split; discriminate.
  - vm_compute. tauto.
Defined.

(** An entry directory written with a trailing slash: every string of
    [paths] still passes the rule, and the views glob holds a doubled
    slash. *)
Example entry_trailing_slash_unnoticed :
  (forall s, In s (built_paths_from {| entry := "src/"; output := "build" |}) ->
             s <> "" /\ leading_slash s = false /\ trailing_slash s = false)
  /\ src (p_views (paths_from {| entry := "src/"; output := "build" |}))
     = One "src//views/**/*".
Proof.
  split; [|reflexivity].
  intros s Hs. vm_compute in Hs.
  repeat (destruct Hs as [<-|Hs]; [repeat split; discriminate|]).
  contradiction.
Qed.
